(** * UserManagement: validation and state reconciliation of the user list

    A shallow embedding of [src/components/UserManagement.tsx]: the field
    validator ([validateField]), the session controller ([handleSubmit],
    [handleInputChange], the open/cancel handlers), the deletion confirmor
    ([handleDelete]) and the derived list view ([filteredUsers]).

    Conventions of the embedding.
    - A JavaScript string is a [string]: a sequence of code units, each below
      256 (the Latin-1 range), one [ascii] per code unit.  [String.length]
      is [.length]; the character classes and the case mapping below are the
      ECMAScript ones restricted to that range.  Where the case mapping of
      other letters matters (the list view), module [Wide] has strings with
      Greek letters as well.
    - A JavaScript number that holds an identifier is a [number]: an integer
      valued double, or [-Infinity] (what [Math.max()] returns on no
      argument).  Addition rounds to 53 significant bits, as a double does.
    - A React state cell is a field of [State]; a handler is a function from
      the state it closes over to the state after its setters are applied,
      together with the message it passes to [alert] (if any).
    - An object with optional keys is a record of [option]s ([None]: the key
      is absent); the error map, whose keys are computed, is a [gmap]. *)

From Stdlib Require Import ZArith NArith Ascii String List Lia Bool.
From stdpp Require Import base decidable option list strings gmap fin_maps.

(** [+:+] unfolds on a string that starts with a known code unit. *)
#[local] Arguments String.append !s1 s2 : simpl nomatch.

(** ** Strings *)

Module JsString.

Definition code (c : ascii) : N := N_of_ascii c.

Definition between (lo hi : N) (c : ascii) : bool :=
  (lo <=? code c)%N && (code c <=? hi)%N.

(** [\d]: the decimal digits. *)
Definition is_digit (c : ascii) : bool := between 48 57 c.

(** [\s]: WhiteSpace and LineTerminator code units below 256, that is
    TAB, LF, VT, FF, CR, SP and NBSP. *)
Definition is_space (c : ascii) : bool :=
  between 9 13 c || (code c =? 32)%N || (code c =? 160)%N.

(** [\w]: letters, digits and the underscore. *)
Definition is_word (c : ascii) : bool :=
  between 65 90 c || between 97 122 c || is_digit c || (code c =? 95)%N.

(** Upper-case letters of the Latin-1 range: A-Z, and U+00C0..U+00DE
    without the multiplication sign U+00D7. *)
Definition is_upper (c : ascii) : bool :=
  between 65 90 c || (between 192 222 c && negb (code c =? 215)%N).

Definition lower_char (c : ascii) : ascii :=
  if is_upper c then ascii_of_N (code c + 32) else c.

(** Used on the field names ["street"] and ["city"] only. *)
Definition upper_char (c : ascii) : ascii :=
  if between 97 122 c then ascii_of_N (code c - 32) else c.

(** [s.toLowerCase()] on a string of code units below 256.  There the
    Unicode case conversion has no special case and no context, so it maps
    unit by unit.  It is not so on other strings: a capital sigma becomes a
    final or a plain small sigma by what stands around it (module [Wide]
    has the conversion on an alphabet with Greek letters, and
    [WideFacts.toLowerCase_of_string] shows that this function is its
    restriction).  No fact below about the list view or the login handle
    rests on the conversion going unit by unit. *)
Fixpoint toLowerCase (s : string) : string :=
  match s with
  | EmptyString => EmptyString
  | String c s' => String (lower_char c) (toLowerCase s')
  end.

(** [s.charAt(0).toUpperCase() + s.slice(1)] *)
Definition capitalize (s : string) : string :=
  match s with
  | EmptyString => EmptyString
  | String c s' => String (upper_char c) s'
  end.

(** [t] starts [s]. *)
Fixpoint startsWith (s t : string) {struct t} : bool :=
  match t, s with
  | EmptyString, _ => true
  | String _ _, EmptyString => false
  | String b t', String a s' => Ascii.eqb a b && startsWith s' t'
  end.

(** [s.includes(t)]: [t] occurs in [s] at some position. *)
Fixpoint includes (s t : string) : bool :=
  startsWith s t ||
  match s with
  | EmptyString => false
  | String _ s' => includes s' t
  end.

(** [s.replace(/\s+/g, "-")]: every maximal run of white space becomes one
    hyphen.  [in_run] tells that the previous code unit was white space. *)
Fixpoint replace_spaces_from (in_run : bool) (s : string) : string :=
  match s with
  | EmptyString => EmptyString
  | String c s' =>
      if is_space c
      then (if in_run then replace_spaces_from true s'
            else String "-" (replace_spaces_from true s'))
      else String c (replace_spaces_from false s')
  end.

Definition replace_spaces (s : string) : string := replace_spaces_from false s.

(** Truthiness of a string: it is not empty. *)
Definition truthy (s : string) : bool :=
  match s with EmptyString => false | String _ _ => true end.

(** [a || b] on strings. *)
Definition or_else (a b : string) : string := if truthy a then a else b.

(** Every code unit of [s] satisfies [p]. *)
Fixpoint all (p : ascii -> bool) (s : string) : bool :=
  match s with
  | EmptyString => true
  | String c s' => p c && all p s'
  end.

(** The number of code units of [s] that satisfy [p]. *)
Fixpoint count (p : ascii -> bool) (s : string) : nat :=
  match s with
  | EmptyString => 0
  | String c s' => (if p c then 1 else 0) + count p s'
  end.

End JsString.

(** ** Regular expressions

    The fragment of ECMAScript patterns the validator uses: classes,
    sequence, alternation, the quantifiers [?], [*], [+], [{n,}] and
    [{n,m}].  Every pattern of the validator is anchored at both ends and
    has no back-reference or look-around, so [test] is membership of the
    whole string in the language of the pattern. *)

Module RegExp.
Import JsString.

Inductive item : Type :=
| One (c : ascii)            (* a literal code unit *)
| Span (lo hi : ascii)       (* lo-hi *)
| Digits                     (* \d *)
| Spaces                     (* \s *)
| Words.                     (* \w *)

Definition item_has (i : item) (c : ascii) : bool :=
  match i with
  | One a => Ascii.eqb a c
  | Span lo hi => between (code lo) (code hi) c
  | Digits => is_digit c
  | Spaces => is_space c
  | Words => is_word c
  end.

Inductive regex : Type :=
| Void
| Eps
| Class (negated : bool) (items : list item)
| Cat (r1 r2 : regex)
| Alt (r1 r2 : regex)
| Star (r : regex).

Definition class_has (negated : bool) (items : list item) (c : ascii) : bool :=
  xorb negated (existsb (fun i => item_has i c) items).

Arguments One c%_char.
Arguments Span (lo hi)%_char.

Definition Chr (c : ascii) : regex := Class false [One c].
Arguments Chr c%_char.

(** A sequence of patterns. *)
Definition Seq (rs : list regex) : regex := fold_right Cat Eps rs.
Definition Opt (r : regex) : regex := Alt Eps r.
Definition Plus (r : regex) : regex := Cat r (Star r).

Fixpoint Exactly (n : nat) (r : regex) : regex :=
  match n with
  | O => Eps
  | S n' => Cat r (Exactly n' r)
  end.

(** [r{n,}] *)
Definition AtLeast (n : nat) (r : regex) : regex := Cat (Exactly n r) (Star r).

Fixpoint UpTo (n : nat) (r : regex) : regex :=
  match n with
  | O => Eps
  | S n' => Opt (Cat r (UpTo n' r))
  end.

(** [r{n,m}] *)
Definition Between (n m : nat) (r : regex) : regex :=
  Cat (Exactly n r) (UpTo (m - n) r).

Fixpoint Lit (s : string) : regex :=
  match s with
  | EmptyString => Eps
  | String c s' => Cat (Chr c) (Lit s')
  end.

(** The language of a pattern. *)
Inductive lang : regex -> string -> Prop :=
| lang_eps : lang Eps ""
| lang_class negated items c :
    class_has negated items c = true -> lang (Class negated items) (String c "")
| lang_cat r1 r2 s1 s2 :
    lang r1 s1 -> lang r2 s2 -> lang (Cat r1 r2) (s1 +:+ s2)
| lang_alt_l r1 r2 s : lang r1 s -> lang (Alt r1 r2) s
| lang_alt_r r1 r2 s : lang r2 s -> lang (Alt r1 r2) s
| lang_star_nil r : lang (Star r) ""
| lang_star_cons r s1 s2 :
    lang r s1 -> lang (Star r) s2 -> lang (Star r) (s1 +:+ s2).

Fixpoint nullable (r : regex) : bool :=
  match r with
  | Void => false
  | Eps => true
  | Class _ _ => false
  | Cat r1 r2 => nullable r1 && nullable r2
  | Alt r1 r2 => nullable r1 || nullable r2
  | Star _ => true
  end.

(** The residual of [r] after reading [c]. *)
Fixpoint deriv (c : ascii) (r : regex) : regex :=
  match r with
  | Void => Void
  | Eps => Void
  | Class negated items => if class_has negated items c then Eps else Void
  | Cat r1 r2 =>
      if nullable r1
      then Alt (Cat (deriv c r1) r2) (deriv c r2)
      else Cat (deriv c r1) r2
  | Alt r1 r2 => Alt (deriv c r1) (deriv c r2)
  | Star r1 => Cat (deriv c r1) (Star r1)
  end.

(** [/^r$/.test(s)] *)
Fixpoint test (r : regex) (s : string) : bool :=
  match s with
  | EmptyString => nullable r
  | String c s' => test (deriv c r) s'
  end.

End RegExp.


(** ** Numbers *)

Module JsNumber.
Local Open Scope Z_scope.

(** The values an identifier can take: an integer valued double or
    [-Infinity].  [Int z] stands for the double whose value is [z]. *)
Inductive number : Type :=
| NegInfinity
| Int (z : Z).

#[global] Instance number_eq_dec : EqDecision number.
Proof. solve_decision. Defined.

(** Round to nearest, ties to even, on a significand of 53 bits: the double
    an exact integer result is stored as.  (No integer reached here has a
    magnitude of 2^1024 or more, where a double overflows.) *)
Definition round53 (z : Z) : Z :=
  let n := Z.abs z in
  let e := Z.log2 n + 1 - 53 in
  if e <=? 0 then z
  else
    let q := Z.shiftr n e in
    let r := n - Z.shiftl q e in
    let half := Z.shiftl 1 (e - 1) in
    let q' := if r <? half then q
              else if half <? r then q + 1
              else if Z.even q then q else q + 1 in
    Z.sgn z * Z.shiftl q' e.

(** [z] is the value of some double. *)
Definition is_double (z : Z) : bool := round53 z =? z.

(** [Number.isSafeInteger]: arithmetic on such integers is exact. *)
Definition safe_integer (z : Z) : Prop := - 2 ^ 53 < z < 2 ^ 53.

(** [a + b] *)
Definition add (a b : number) : number :=
  match a, b with
  | Int x, Int y => Int (round53 (x + y))
  | _, _ => NegInfinity
  end.

Definition max2 (a b : number) : number :=
  match a, b with
  | NegInfinity, _ => b
  | _, NegInfinity => a
  | Int x, Int y => Int (Z.max x y)
  end.

(** [Math.max(...l)]; with no argument the result is [-Infinity]. *)
Definition Math_max (l : list number) : number := fold_right max2 NegInfinity l.

(** Truthiness of a number: it is not zero. *)
Definition nonzero (a : number) : bool :=
  match a with
  | Int 0 => false
  | _ => true
  end.

End JsNumber.

(** ** The component *)

Module UserManagement.
Import JsString JsNumber.

(** *** Data model (lines 7-35) *)

Record Address : Type := { address_street : string; address_city : string }.

Record Company : Type := { company_name : string }.

(** A record of [users] as it is at run time.  The interface [User]
    declares [name], [email], [phone] and [website] as strings, but a record
    built by [handleSubmit] is the spread of a draft cast to [User], so these
    keys are absent when the draft lacks them; the same spread copies the
    flattened draft keys ["company.name"], [street] and [city] onto the
    record. *)
Record User : Type := {
  user_id : number;
  user_name : option string;
  user_email : option string;
  user_phone : option string;
  user_username : string;
  user_website : option string;
  user_company : Company;
  user_address : Address;
  user_flat_company_name : option string;
  user_flat_street : option string;
  user_flat_city : option string
}.

(** [FormData]: every key is optional.  In an edit session the draft is
    seeded by a spread of the record, which brings [id], [username],
    [company] and [address] along. *)
Record FormData : Type := {
  fd_id : option number;
  fd_name : option string;
  fd_email : option string;
  fd_phone : option string;
  fd_username : option string;
  fd_website : option string;
  fd_company : option Company;
  fd_address : option Address;
  fd_company_name : option string;
  fd_street : option string;
  fd_city : option string
}.

(** [{}] *)
Definition empty_draft : FormData :=
  {| fd_id := None; fd_name := None; fd_email := None; fd_phone := None;
     fd_username := None; fd_website := None; fd_company := None;
     fd_address := None; fd_company_name := None; fd_street := None;
     fd_city := None |}.

Inductive FormMode : Type := create | edit.

#[global] Instance FormMode_eq_dec : EqDecision FormMode.
Proof. solve_decision. Defined.

(** The state cells of the component (lines 38-47). *)
Record State : Type := {
  users : list User;
  loading : bool;
  searchTerm : string;
  formMode : option FormMode;
  currentUser : option User;
  formData : FormData;
  formErrors : gmap string string;
  deleteConfirmation : option number
}.

Definition initial : State :=
  {| users := []; loading := true; searchTerm := ""; formMode := None;
     currentUser := None; formData := empty_draft; formErrors := ∅;
     deleteConfirmation := None |}.

Definition setUsers (v : list User) (st : State) : State :=
  {| users := v; loading := loading st; searchTerm := searchTerm st;
     formMode := formMode st; currentUser := currentUser st;
     formData := formData st; formErrors := formErrors st;
     deleteConfirmation := deleteConfirmation st |}.

Definition setLoading (v : bool) (st : State) : State :=
  {| users := users st; loading := v; searchTerm := searchTerm st;
     formMode := formMode st; currentUser := currentUser st;
     formData := formData st; formErrors := formErrors st;
     deleteConfirmation := deleteConfirmation st |}.

Definition setSearchTerm (v : string) (st : State) : State :=
  {| users := users st; loading := loading st; searchTerm := v;
     formMode := formMode st; currentUser := currentUser st;
     formData := formData st; formErrors := formErrors st;
     deleteConfirmation := deleteConfirmation st |}.

Definition setFormMode (v : option FormMode) (st : State) : State :=
  {| users := users st; loading := loading st; searchTerm := searchTerm st;
     formMode := v; currentUser := currentUser st;
     formData := formData st; formErrors := formErrors st;
     deleteConfirmation := deleteConfirmation st |}.

Definition setCurrentUser (v : option User) (st : State) : State :=
  {| users := users st; loading := loading st; searchTerm := searchTerm st;
     formMode := formMode st; currentUser := v;
     formData := formData st; formErrors := formErrors st;
     deleteConfirmation := deleteConfirmation st |}.

Definition setFormData (v : FormData) (st : State) : State :=
  {| users := users st; loading := loading st; searchTerm := searchTerm st;
     formMode := formMode st; currentUser := currentUser st;
     formData := v; formErrors := formErrors st;
     deleteConfirmation := deleteConfirmation st |}.

Definition setFormErrors (v : gmap string string) (st : State) : State :=
  {| users := users st; loading := loading st; searchTerm := searchTerm st;
     formMode := formMode st; currentUser := currentUser st;
     formData := formData st; formErrors := v;
     deleteConfirmation := deleteConfirmation st |}.

Definition setDeleteConfirmation (v : option number) (st : State) : State :=
  {| users := users st; loading := loading st; searchTerm := searchTerm st;
     formMode := formMode st; currentUser := currentUser st;
     formData := formData st; formErrors := formErrors st;
     deleteConfirmation := v |}.

(** *** Field validator (lines 74-108) *)

(** [/^[^\s@]+@[^\s@]+\.[^\s@]+$/] *)
Definition email_pattern : RegExp.regex :=
  RegExp.Seq
    [ RegExp.Plus (RegExp.Class true [RegExp.Spaces; RegExp.One "@"]);
      RegExp.Chr "@";
      RegExp.Plus (RegExp.Class true [RegExp.Spaces; RegExp.One "@"]);
      RegExp.Chr ".";
      RegExp.Plus (RegExp.Class true [RegExp.Spaces; RegExp.One "@"]) ].

(** [/^\+?[\d\s-]{10,}$/] *)
Definition phone_pattern : RegExp.regex :=
  RegExp.Seq
    [ RegExp.Opt (RegExp.Chr "+");
      RegExp.AtLeast 10
        (RegExp.Class false [RegExp.Digits; RegExp.Spaces; RegExp.One "-"]) ].

(** The pattern of lines 99-101, here cut in two after its last class:
    [/^(https?:\/\/)?([\da-z\.-]+)\.([a-z\.]{2,6})([\/\w \.-]*]
    and [)*\/?$/]. *)
Definition website_pattern : RegExp.regex :=
  RegExp.Seq
    [ RegExp.Opt
        (RegExp.Seq [RegExp.Lit "http"; RegExp.Opt (RegExp.Chr "s"); RegExp.Lit "://"]);
      RegExp.Plus
        (RegExp.Class false
           [RegExp.Digits; RegExp.Span "a" "z"; RegExp.One "."; RegExp.One "-"]);
      RegExp.Chr ".";
      RegExp.Between 2 6 (RegExp.Class false [RegExp.Span "a" "z"; RegExp.One "."]);
      RegExp.Star
        (RegExp.Star
           (RegExp.Class false
              [RegExp.One "/"; RegExp.Words; RegExp.One " "; RegExp.One ".";
               RegExp.One "-"]));
      RegExp.Opt (RegExp.Chr "/") ].

(** The message [validateField] computes for the field [name] holding
    [value]: the local [error] at line 107 ([""]: no error). *)
Definition validation_error (name value : string) : string :=
  if String.eqb name "name" then
    if Nat.ltb (String.length value) 3
    then "Name must be at least 3 characters long" else ""
  else if String.eqb name "email" then
    if negb (RegExp.test email_pattern value) then "Invalid email format" else ""
  else if String.eqb name "phone" then
    if negb (RegExp.test phone_pattern value) then "Invalid phone number" else ""
  else if String.eqb name "street" || String.eqb name "city" then
    if negb (truthy value) then capitalize name +:+ " is required" else ""
  else if String.eqb name "company.name" then
    if truthy value && Nat.ltb (String.length value) 3
    then "Company name must be at least 3 characters long" else ""
  else if String.eqb name "website" then
    if truthy value && negb (RegExp.test website_pattern value)
    then "Invalid website URL" else ""
  else "".

Definition validateField (name value : string) (st : State) : State :=
  setFormErrors (<[name := validation_error name value]> (formErrors st)) st.

(** *** Input handling (lines 68-72, 319-350) *)

(** The inputs of the form, by the [name] attribute each one carries. *)
Inductive Field : Type :=
| f_name | f_email | f_phone | f_street | f_city | f_company_name | f_website.

Definition field_key (f : Field) : string :=
  match f with
  | f_name => "name"
  | f_email => "email"
  | f_phone => "phone"
  | f_street => "street"
  | f_city => "city"
  | f_company_name => "company.name"
  | f_website => "website"
  end.

(** [{ ...prev, [name]: value }] for the input [f]. *)
Definition set_field (f : Field) (value : string) (prev : FormData) : FormData :=
  {| fd_id := fd_id prev;
     fd_name := if f is f_name then Some value else fd_name prev;
     fd_email := if f is f_email then Some value else fd_email prev;
     fd_phone := if f is f_phone then Some value else fd_phone prev;
     fd_username := fd_username prev;
     fd_website := if f is f_website then Some value else fd_website prev;
     fd_company := fd_company prev;
     fd_address := fd_address prev;
     fd_company_name :=
       if f is f_company_name then Some value else fd_company_name prev;
     fd_street := if f is f_street then Some value else fd_street prev;
     fd_city := if f is f_city then Some value else fd_city prev |}.

Definition handleInputChange (f : Field) (value : string) (st : State) : State :=
  validateField (field_key f) value (setFormData (set_field f value (formData st)) st).

(** *** Session controller (lines 110-150, 214-218, 271-281, 361-365) *)

(** [Object.values(formErrors).some((error) => error)] *)
Definition has_errors (errors : gmap string string) : bool :=
  existsb truthy (map_to_list errors).*2.

(** [draft || fallback], for a draft key that may be absent. *)
Definition draft_or (draft : option string) (fallback : string) : string :=
  match draft with
  | Some s => or_else s fallback
  | None => fallback
  end.

(** [`USER-${formData.name?.toLowerCase().replace(/\s+/g, "-")}`] *)
Definition login_handle (draft_name : option string) : string :=
  "USER-" +:+
  match draft_name with
  | Some n => replace_spaces (toLowerCase n)
  | None => "undefined"
  end.

(** The record of lines 117-123. *)
Definition newUser (users : list User) (fd : FormData) : User :=
  {| user_id := add (Math_max (user_id <$> users)) (Int 1);
     user_name := fd_name fd;
     user_email := fd_email fd;
     user_phone := fd_phone fd;
     user_username := login_handle (fd_name fd);
     user_website := fd_website fd;
     user_company := {| company_name := draft_or (fd_company_name fd) "" |};
     user_address :=
       {| address_street := draft_or (fd_street fd) "";
          address_city := draft_or (fd_city fd) "" |};
     user_flat_company_name := fd_company_name fd;
     user_flat_street := fd_street fd;
     user_flat_city := fd_city fd |}.

(** A key of the second spread wins over the same key of the first. *)
Definition over {A : Type} (second first : option A) : option A :=
  match second with
  | Some v => Some v
  | None => first
  end.

(** The record of lines 129-141. *)
Definition updatedUser (user : User) (fd : FormData) : User :=
  {| user_id := default (user_id user) (fd_id fd);
     user_name := over (fd_name fd) (user_name user);
     user_email := over (fd_email fd) (user_email user);
     user_phone := over (fd_phone fd) (user_phone user);
     user_username := default (user_username user) (fd_username fd);
     user_website := over (fd_website fd) (user_website user);
     user_company :=
       {| company_name :=
            draft_or (fd_company_name fd) (company_name (user_company user)) |};
     user_address :=
       {| address_street :=
            draft_or (fd_street fd) (address_street (user_address user));
          address_city :=
            draft_or (fd_city fd) (address_city (user_address user)) |};
     user_flat_company_name :=
       over (fd_company_name fd) (user_flat_company_name user);
     user_flat_street := over (fd_street fd) (user_flat_street user);
     user_flat_city := over (fd_city fd) (user_flat_city user) |}.

(** Lines 127-143. *)
Definition updatedUsers (users : list User) (cu : User) (fd : FormData) : list User :=
  (fun user =>
     if bool_decide (user_id user = user_id cu)
     then updatedUser user fd else user) <$> users.

(** Lines 147-149. *)
Definition close_form (st : State) : State :=
  setFormData empty_draft (setCurrentUser None (setFormMode None st)).

(** The state after the handler and the message it alerts. *)
Definition handleSubmit (st : State) : State * option string :=
  if has_errors (formErrors st) then
    (st, Some "Please correct the form errors before submitting")
  else
    match formMode st, currentUser st with
    | Some create, _ =>
        (close_form (setUsers (users st ++ [newUser (users st) (formData st)]) st),
         Some "User created successfully!")
    | Some edit, Some cu =>
        (close_form (setUsers (updatedUsers (users st) cu (formData st)) st),
         Some "User updated successfully!")
    | _, _ => (close_form st, None)
    end.

(** The "Create User" button (lines 214-218). *)
Definition open_create (st : State) : State :=
  setFormErrors ∅ (setFormData empty_draft (setFormMode (Some create) st)).

(** The draft an edit session starts from (lines 274-279). *)
Definition draft_of (user : User) : FormData :=
  {| fd_id := Some (user_id user);
     fd_name := user_name user;
     fd_email := user_email user;
     fd_phone := user_phone user;
     fd_username := Some (user_username user);
     fd_website := user_website user;
     fd_company := Some (user_company user);
     fd_address := Some (user_address user);
     fd_company_name := Some (company_name (user_company user));
     fd_street := Some (address_street (user_address user));
     fd_city := Some (address_city (user_address user)) |}.

(** The pencil button of a row (lines 271-281). *)
Definition open_edit (user : User) (st : State) : State :=
  setFormErrors ∅
    (setFormData (draft_of user) (setCurrentUser (Some user) (setFormMode (Some edit) st))).

(** The "Cancel" button of the form (lines 361-365). *)
Definition cancel_form (st : State) : State := close_form st.

(** *** Deletion confirmor (lines 152-156, 287, 407, 413) *)

Definition handleDelete (id : number) (st : State) : State * option string :=
  (setDeleteConfirmation None
     (setUsers (filter (λ user, user_id user ≠ id) (users st)) st),
   Some "User deleted successfully!").

Definition ask_delete (id : number) (st : State) : State :=
  setDeleteConfirmation (Some id) st.

Definition cancel_delete (st : State) : State := setDeleteConfirmation None st.

(** *** List view (lines 158-160) *)

(** The outcome of an expression that may throw a [TypeError]. *)
Inductive Completion (A : Type) : Type :=
| Normal (a : A)
| TypeError.
Arguments Normal {A} a.
Arguments TypeError {A}.

(** [users.filter(callback)] for a callback that may throw: the elements are
    visited in order and the first exception ends the call. *)
Fixpoint array_filter {A : Type} (callback : A -> Completion bool) (l : list A)
  : Completion (list A) :=
  match l with
  | [] => Normal []
  | x :: l' =>
      match callback x with
      | TypeError => TypeError
      | Normal keep =>
          match array_filter callback l' with
          | TypeError => TypeError
          | Normal rest => Normal (if keep then x :: rest else rest)
          end
      end
  end.

(** [user.name.toLowerCase().includes(searchTerm.toLowerCase())]; reading
    [toLowerCase] of an absent name throws. *)
Definition matches_search (searchTerm : string) (user : User) : Completion bool :=
  match user_name user with
  | Some n => Normal (includes (toLowerCase n) (toLowerCase searchTerm))
  | None => TypeError
  end.

Definition filteredUsers (st : State) : Completion (list User) :=
  array_filter (matches_search (searchTerm st)) (users st).

(** *** The component as a transition system

    What the rendered page lets its user do.  While [loading] holds the
    component renders the spinner only (line 162); a render that throws
    unmounts the component, so a control exists only when [filteredUsers]
    returns.  The form and its buttons are rendered when [formMode] is set
    (line 302), the confirmation dialog when [deleteConfirmation] is truthy
    (line 385); the row buttons act on a row of the filtered list.

    [on_submit] is the submit event reaching [handleSubmit].  The inputs
    carry [required], [type="email"] and [type="url"] (lines 337-349) and
    the form has no [noValidate] (line 318), so on the page the browser
    fires that event only when its own constraint validation passes: with
    an empty required input it never does.  That validation is the
    browser's and is not embedded: [step] lets a submit through on every
    open form.  The runs of [step] are therefore a superset of the runs of
    the page.  A property of every run holds of the page; a run that is to
    stand for the page must fill the required inputs before it submits, as
    [two_creates_on_empty] does. *)

Inductive Event : Type :=
| on_loaded (data : list User)
| on_load_failed
| on_search (term : string)
| on_create
| on_edit (row : nat)
| on_input (f : Field) (value : string)
| on_submit
| on_cancel
| on_trash (row : nat)
| on_confirm_delete
| on_cancel_delete.

(** The rows of the table, when the component is mounted and not loading. *)
Definition rows (st : State) : option (list User) :=
  if loading st then None
  else match filteredUsers st with
       | Normal l => Some l
       | TypeError => None
       end.

Definition form_open (st : State) : bool :=
  match formMode st with Some _ => true | None => false end.

(** [None]: the control is not on the page. *)
Definition step (st : State) (e : Event) : option State :=
  match e with
  | on_loaded data =>
      if loading st then Some (setLoading false (setUsers data st)) else None
  | on_load_failed =>
      if loading st then Some (setLoading false st) else None
  | _ =>
      match rows st with
      | None => None
      | Some table =>
          match e with
          | on_search term => Some (setSearchTerm term st)
          | on_create => Some (open_create st)
          | on_edit row =>
              match table !! row with
              | Some user => Some (open_edit user st)
              | None => None
              end
          | on_input f value =>
              if form_open st then Some (handleInputChange f value st) else None
          | on_submit =>
              if form_open st then Some (fst (handleSubmit st)) else None
          | on_cancel =>
              if form_open st then Some (cancel_form st) else None
          | on_trash row =>
              match table !! row with
              | Some user => Some (ask_delete (user_id user) st)
              | None => None
              end
          | on_confirm_delete =>
              match deleteConfirmation st with
              | Some id =>
                  if nonzero id then Some (fst (handleDelete id st)) else None
              | None => None
              end
          | on_cancel_delete =>
              match deleteConfirmation st with
              | Some id => if nonzero id then Some (cancel_delete st) else None
              | None => None
              end
          | _ => None
          end
      end
  end.

Fixpoint run (st : State) (es : list Event) : option State :=
  match es with
  | [] => Some st
  | e :: es' =>
      match step st e with
      | Some st' => run st' es'
      | None => None
      end
  end.

(** [st] is the state of the component after some sequence of events. *)
Definition reachable (st : State) : Prop := ∃ es, run initial es = Some st.

(** *** Properties the specification names *)

(** Every record has an identifier of its own. *)
Definition unique_ids (l : list User) : Prop := NoDup (user_id <$> l).

(** [m] is the greatest of the integers [l]. *)
Definition greatest (m : Z) (l : list number) : Prop :=
  Int m ∈ l ∧ ∀ a, a ∈ l → ∃ z, a = Int z ∧ (z ≤ m)%Z.

(** Every identifier is an integer on which arithmetic is exact. *)
Definition safe_ids (l : list User) : Prop :=
  Forall (λ u, ∃ z, user_id u = Int z ∧ safe_integer z) l.

(** The error map holds a message that is not empty. *)
Definition some_error (errors : gmap string string) : Prop :=
  ∃ key message, errors !! key = Some message ∧ message ≠ "".

(** A create session, or an edit session of the record [currentUser]. *)
Definition session_open (st : State) : Prop :=
  formMode st = Some create ∨
  (formMode st = Some edit ∧ is_Some (currentUser st)).

(** A code unit of one part of an address: no white space, no at-sign. *)
Definition email_unit (c : ascii) : bool :=
  negb (is_space c) && negb (Ascii.eqb c "@").

(** The shape [x@y.z]: three parts, none empty, none holding white space or
    an at-sign. *)
Definition email_shape (s : string) : Prop :=
  ∃ x y z,
    s = x +:+ "@" +:+ y +:+ "." +:+ z ∧
    x ≠ "" ∧ y ≠ "" ∧ z ≠ "" ∧
    all email_unit x = true ∧ all email_unit y = true ∧ all email_unit z = true.

(** A digit or a separator (white space, hyphen). *)
Definition phone_unit (c : ascii) : bool :=
  is_digit c || is_space c || Ascii.eqb c "-".

(** The phone shape as the specification words it: digits and separators
    after an optional plus sign, ten digits at least among them. *)
Definition phone_ten_digits (s : string) : Prop :=
  ∃ body,
    (s = body ∨ s = "+" +:+ body) ∧
    all phone_unit body = true ∧ 10 ≤ count is_digit body.

(** The phone rule as the specification states it: unless the value has ten
    digits or more (among digits and separators, after an optional plus
    sign) the validator of the phone field reports an error. *)
Definition phone_as_stated (value : string) : Prop :=
  ¬ phone_ten_digits value → validation_error "phone" value ≠ "".

(** The phone shape of the pattern: ten code units at least after an
    optional plus sign, each a digit or a separator. *)
Definition phone_shape (s : string) : Prop :=
  ∃ body,
    (s = body ∨ s = "+" +:+ body) ∧
    all phone_unit body = true ∧ 10 ≤ String.length body.

(** The lower-cased [s] holds the lower-cased [t] as a substring. *)
Definition lowered_contains (t s : string) : Prop :=
  ∃ before after, toLowerCase s = before +:+ toLowerCase t +:+ after.

(** The record has a name, and the lower-cased name holds the lower-cased
    search term. *)
Definition shown_lowered (term : string) (u : User) : Prop :=
  ∃ n, user_name u = Some n ∧ lowered_contains term n.

(** Every record has a name, as the interface [User] declares. *)
Definition all_named (l : list User) : Prop :=
  Forall (λ u, is_Some (user_name u)) l.

(** The elements of a list that satisfy [P], in the order of the list. *)
Inductive selection {A : Type} (P : A → Prop) : list A → list A → Prop :=
| selection_nil : selection P [] []
| selection_keep x l kept : P x → selection P l kept → selection P (x :: l) (x :: kept)
| selection_skip x l kept : ¬ P x → selection P l kept → selection P (x :: l) kept.

(** [handleSubmit] turned the submit down. *)
Definition rejected (st : State) : Prop :=
  handleSubmit st = (st, Some "Please correct the form errors before submitting").

(** The record set a commit of the open session leaves. *)
Definition committed (st : State) : list User :=
  match formMode st, currentUser st with
  | Some create, _ => users st ++ [newUser (users st) (formData st)]
  | Some edit, Some cu => updatedUsers (users st) cu (formData st)
  | _, _ => users st
  end.

(** A nested field after an edit: the value of the record when the draft
    holds nothing for it, the value of the draft otherwise. *)
Definition kept_or_overwritten (draft : option string) (before after : string) : Prop :=
  ((draft = None ∨ draft = Some "") → after = before) ∧
  (∀ v, draft = Some v → v ≠ "" → after = v).

(** A key after an edit: the value of the draft when it has one, the value
    of the record otherwise. *)
Definition merged_over {A : Type} (draft before after : option A) : Prop :=
  match draft with
  | Some v => after = Some v
  | None => after = before
  end.

(** In an edit session the draft carries the identifier of the record under
    edit. *)
Definition edit_draft_keeps_id (st : State) : Prop :=
  formMode st = Some edit →
  ∃ cu, currentUser st = Some cu ∧ fd_id (formData st) = Some (user_id cu).

(** The identifier rule as the specification states it: a valid submit of
    a create session appends a record whose identifier is the greatest
    identifier of the set plus one. *)
Definition next_id_as_stated (st : State) : Prop :=
  formMode st = Some create → ¬ some_error (formErrors st) →
  ∃ m u, greatest m (user_id <$> (users st)) ∧
         users (fst (handleSubmit st)) = users st ++ [u] ∧
         user_id u = Int (m + 1).

(** *** Sample data *)

(** A record as the endpoint serves it. *)
Definition served (id : Z) (name : string) : User :=
  {| user_id := Int id;
     user_name := Some name;
     user_email := Some "someone@example.org";
     user_phone := Some "1-770-736-8031";
     user_username := "someone";
     user_website := Some "example.org";
     user_company := {| company_name := "Romaguera-Crona" |};
     user_address := {| address_street := "Kulas Light"; address_city := "Gwenborough" |};
     user_flat_company_name := None;
     user_flat_street := None;
     user_flat_city := None |}.

(** Typing into the five required inputs. *)
Definition fill_form (name email phone street city : string) : list Event :=
  [ on_input f_name name; on_input f_email email; on_input f_phone phone;
    on_input f_street street; on_input f_city city ].

(** The fetch fails, and two users are created one after the other. *)
Definition two_creates_on_empty : list Event :=
  [on_load_failed; on_create]
  ++ fill_form "Ann Lee" "ann@example.org" "555-010-0001" "1 Main St" "Springfield"
  ++ [on_submit; on_create]
  ++ fill_form "Bob Ray" "bob@example.org" "555-010-0002" "2 High St" "Shelbyville"
  ++ [on_submit].

End UserManagement.

(** ** The form as it is rendered (lines 318-357) *)

Module FormView.
Import JsString JsNumber UserManagement.

(** The inputs of the form, in the order of the page (lines 319-327). *)
Definition form_fields : list Field :=
  [f_name; f_email; f_phone; f_street; f_city; f_company_name; f_website].

(** [required={!["company.name", "website"].includes(field)}] (line 349) *)
Definition required (f : Field) : bool :=
  negb (existsb (String.eqb (field_key f)) ["company.name"; "website"]).

(** [formData[field as keyof FormData]] *)
Definition draft_field (f : Field) (fd : FormData) : option string :=
  match f with
  | f_name => fd_name fd
  | f_email => fd_email fd
  | f_phone => fd_phone fd
  | f_street => fd_street fd
  | f_city => fd_city fd
  | f_company_name => fd_company_name fd
  | f_website => fd_website fd
  end.

(** The text an input shows: [value={formData[field] || ""}] (line 346). *)
Definition input_value (f : Field) (fd : FormData) : string :=
  draft_or (draft_field f fd) "".

(** The message under an input, when there is one:
    [formErrors[field] && <p>...</p>] (lines 351-355). *)
Definition input_message (f : Field) (errors : gmap string string) : option string :=
  match errors !! field_key f with
  | Some message => if truthy message then Some message else None
  | None => None
  end.

(** What a record holds for an input of the form. *)
Definition record_field (f : Field) (u : User) : option string :=
  match f with
  | f_name => user_name u
  | f_email => user_email u
  | f_phone => user_phone u
  | f_street => Some (address_street (user_address u))
  | f_city => Some (address_city (user_address u))
  | f_company_name => Some (company_name (user_company u))
  | f_website => user_website u
  end.

(** Two records agree on every key the interface [User] declares. *)
Definition same_declared (u u' : User) : Prop :=
  user_id u = user_id u' ∧ user_name u = user_name u' ∧
  user_email u = user_email u' ∧ user_phone u = user_phone u' ∧
  user_username u = user_username u' ∧ user_website u = user_website u' ∧
  user_company u = user_company u' ∧ user_address u = user_address u'.

Definition is_at (c : ascii) : bool := Ascii.eqb c "@".

Definition not_space (c : ascii) : bool := negb (is_space c).

(** A code unit of a host name: [[\da-z\.-]]. *)
Definition host_unit (c : ascii) : bool :=
  is_digit c || between 97 122 c || Ascii.eqb c "." || Ascii.eqb c "-".

(** The events that can change the record set. *)
Definition writes_records (e : Event) : bool :=
  match e with
  | on_loaded _ | on_submit | on_confirm_delete => true
  | _ => false
  end.

End FormView.

(** ** Strings with Greek letters

    The list view lower-cases names and search terms, and the Unicode case
    conversion does not go unit by unit on every alphabet.  This module has
    the strings over the code units below 256 and the Greek letters
    U+0391..U+03A9 and U+03B1..U+03C9, [toLowerCase] as the Unicode default
    case conversion gives it on them (the lower-case mapping of each letter
    and the Final_Sigma rule of SpecialCasing), and the list view on
    records with such names. *)

Module Wide.
Import JsString JsNumber UserManagement.

Inductive greek : Type :=
| Alpha | Beta | Gamma | Delta | Epsilon | Zeta | Eta | Theta | Iota | Kappa
| Lambda | Mu | Nu | Xi | Omicron | Pi | Rho | Sigma | Tau | Upsilon | Phi
| Chi | Psi | Omega.

Inductive code_unit : Type :=
| Latin1 (c : ascii)      (* U+0000..U+00FF *)
| Capital (g : greek)     (* U+0391..U+03A9; U+03A2 is not assigned *)
| Small (g : greek)       (* U+03B1..U+03C9 but U+03C2; [Small Sigma] is U+03C3 *)
| FinalSigma.             (* U+03C2 *)

Arguments Latin1 c%_char.

#[global] Instance greek_eq_dec : EqDecision greek.
Proof. solve_decision. Defined.

#[global] Instance code_unit_eq_dec : EqDecision code_unit.
Proof. solve_decision. Defined.

(** The place of a letter in its row of the code chart; the place after
    rho is that of U+03A2 and of the final sigma. *)
Definition place (g : greek) : N :=
  match g with
  | Alpha => 0 | Beta => 1 | Gamma => 2 | Delta => 3 | Epsilon => 4
  | Zeta => 5 | Eta => 6 | Theta => 7 | Iota => 8 | Kappa => 9
  | Lambda => 10 | Mu => 11 | Nu => 12 | Xi => 13 | Omicron => 14
  | Pi => 15 | Rho => 16 | Sigma => 18 | Tau => 19 | Upsilon => 20
  | Phi => 21 | Chi => 22 | Psi => 23 | Omega => 24
  end%N.

(** The number of a code unit. *)
Definition code_point (u : code_unit) : N :=
  match u with
  | Latin1 c => code c
  | Capital g => 913 + place g
  | Small g => 945 + place g
  | FinalSigma => 962
  end%N.

Definition text : Type := list code_unit.

(** The units of a string of code units below 256. *)
Fixpoint of_string (s : string) : text :=
  match s with
  | EmptyString => []
  | String c s' => Latin1 c :: of_string s'
  end.

(** The property Cased below 256: the letters of both cases, the two
    ordinal indicators and the micro sign. *)
Definition latin1_cased (c : ascii) : bool :=
  between 65 90 c || between 97 122 c ||
  (code c =? 170)%N || (code c =? 181)%N || (code c =? 186)%N ||
  between 192 214 c || between 216 246 c || between 248 255 c.

(** The property Case_Ignorable below 256: apostrophe, full stop, colon,
    circumflex, grave, diaeresis, soft hyphen, macron, acute, middle dot and
    cedilla. *)
Definition latin1_case_ignorable (c : ascii) : bool :=
  existsb (N.eqb (code c)) [39; 46; 58; 94; 96; 168; 173; 175; 180; 183; 184]%N.

Definition cased (u : code_unit) : bool :=
  match u with
  | Latin1 c => latin1_cased c
  | _ => true
  end.

Definition case_ignorable (u : code_unit) : bool :=
  match u with
  | Latin1 c => latin1_case_ignorable c
  | _ => false
  end.

(** After any number of case-ignorable units comes a cased letter. *)
Fixpoint cased_follows (s : text) : bool :=
  match s with
  | [] => false
  | u :: rest => if case_ignorable u then cased_follows rest else cased u
  end.

(** The lower case of one unit; [final] tells that a capital sigma stands
    in the Final_Sigma context. *)
Definition lower_unit (final : bool) (u : code_unit) : code_unit :=
  match u with
  | Latin1 c => Latin1 (lower_char c)
  | Capital Sigma => if final then FinalSigma else Small Sigma
  | Capital g => Small g
  | _ => u
  end.

(** [after_cased]: before the unit stand a cased letter and then any number
    of case-ignorable units.  A capital sigma is final when that holds and
    no cased letter follows it, case-ignorable units skipped. *)
Fixpoint lower_from (after_cased : bool) (s : text) : text :=
  match s with
  | [] => []
  | u :: rest =>
      lower_unit (after_cased && negb (cased_follows rest)) u
      :: lower_from (if case_ignorable u then after_cased else cased u) rest
  end.

(** [s.toLowerCase()] *)
Definition toLowerCase (s : text) : text := lower_from false s.

Fixpoint startsWith (s t : text) {struct t} : bool :=
  match t, s with
  | [], _ => true
  | _ :: _, [] => false
  | b :: t', a :: s' => bool_decide (a = b) && startsWith s' t'
  end.

(** [s.includes(t)] *)
Fixpoint includes (s t : text) : bool :=
  startsWith s t ||
  match s with
  | [] => false
  | _ :: s' => includes s' t
  end.

(** [user.name.toLowerCase().includes(searchTerm.toLowerCase())] for a
    record whose name is read by [name_of]. *)
Definition matches_search {R : Type} (name_of : R → option text)
    (searchTerm : text) (user : R) : Completion bool :=
  match name_of user with
  | Some n => Normal (includes (toLowerCase n) (toLowerCase searchTerm))
  | None => TypeError
  end.

(** The filter of lines 158-160. *)
Definition filteredUsers {R : Type} (name_of : R → option text)
    (users : list R) (searchTerm : text) : Completion (list R) :=
  array_filter (matches_search name_of searchTerm) users.

(** [t] occurs in [s] when the case of letters is ignored: some stretch of
    [s] has the lower case of [t]. *)
Definition occurs_ignoring_case (t s : text) : Prop :=
  ∃ before middle after,
    s = before ++ middle ++ after ∧ toLowerCase middle = toLowerCase t.

(** The record has a name in which the search term occurs, case ignored. *)
Definition shown {R : Type} (name_of : R → option text) (term : text) (r : R) : Prop :=
  ∃ n, name_of r = Some n ∧ occurs_ignoring_case term n.

(** The list view as the specification states it: it holds the records
    whose name contains the search term as a case-insensitive substring,
    in their order. *)
Definition list_view_as_stated {R : Type} (name_of : R → option text)
    (users : list R) (term : text) : Prop :=
  ∃ l, filteredUsers name_of users term = Normal l ∧
       selection (shown name_of term) users l.

(** The lower-cased [s] holds the lower-cased [t] as a substring. *)
Definition lowered_contains (t s : text) : Prop :=
  ∃ before after, toLowerCase s = before ++ toLowerCase t ++ after.

(** The record has a name, and the lower-cased name holds the lower-cased
    search term. *)
Definition shown_lowered {R : Type} (name_of : R → option text) (term : text) (r : R)
  : Prop :=
  ∃ n, name_of r = Some n ∧ lowered_contains term n.

(** The name of a record of the component, as a text. *)
Definition wide_name (u : User) : option text := of_string <$> user_name u.

(** A record set that is a list of names. *)
Definition named (n : text) : option text := Some n.

End Wide.

(** * Facts *)

(** ** Strings *)

Module StringFacts.
Import JsString.

Lemma append_empty_r s : s +:+ "" = s.
Proof. induction s as [|c s IH]; simpl; [done | by rewrite IH]. Qed.

Lemma append_assoc s1 s2 s3 : (s1 +:+ s2) +:+ s3 = s1 +:+ s2 +:+ s3.
Proof. induction s1 as [|c s1 IH]; simpl; [done | by rewrite IH]. Qed.

Lemma append_is_empty s1 s2 : s1 +:+ s2 = "" → s1 = "" ∧ s2 = "".
Proof. destruct s1; simpl; [done | discriminate]. Qed.

Lemma append_is_cons s1 s2 c s :
  s1 +:+ s2 = String c s →
  (s1 = "" ∧ s2 = String c s) ∨ (∃ s1', s1 = String c s1' ∧ s = s1' +:+ s2).
Proof.
  destruct s1 as [|a s1]; simpl; intros H; [by left | right].
  injection H as -> <-. by exists s1.
Qed.

Lemma all_append p s1 s2 : all p (s1 +:+ s2) = all p s1 && all p s2.
Proof.
  induction s1 as [|c s1 IH]; simpl; [done |].
  by rewrite IH, andb_assoc.
Qed.

Lemma length_append s1 s2 :
  String.length (s1 +:+ s2) = String.length s1 + String.length s2.
Proof. induction s1 as [|c s1 IH]; simpl; [done | by rewrite IH]. Qed.

Lemma count_append p s1 s2 : count p (s1 +:+ s2) = count p s1 + count p s2.
Proof. induction s1 as [|c s1 IH]; simpl; [done | rewrite IH; lia]. Qed.

Lemma count_le_length p s : count p s ≤ String.length s.
Proof. induction s as [|c s IH]; simpl; [done | destruct (p c); lia]. Qed.

Lemma truthy_true s : truthy s = true ↔ s ≠ "".
Proof. destruct s; simpl; split; (done || discriminate || by intros []). Qed.

Lemma or_else_nonempty a b : a ≠ "" → or_else a b = a.
Proof. intros H. unfold or_else. apply truthy_true in H. by rewrite H. Qed.

Lemma startsWith_spec s t : startsWith s t = true ↔ ∃ rest, s = t +:+ rest.
Proof.
  revert s. induction t as [|b t IH]; intros s; simpl.
  - split; [intros _; by exists s | done].
  - destruct s as [|a s].
    + split; [discriminate | intros [rest H]; discriminate].
    + rewrite andb_true_iff, IH. split.
      * intros [Hab [rest ->]]. apply Ascii.eqb_eq in Hab as ->. by exists rest.
      * intros [rest H]. injection H as -> ->. split; [apply Ascii.eqb_refl | by exists rest].
Qed.

(** [includes] finds exactly the occurrences of [t] as a substring. *)
Lemma includes_spec s t :
  includes s t = true ↔ ∃ before after, s = before +:+ t +:+ after.
Proof.
  induction s as [|a s IH]; simpl.
  - rewrite orb_false_r, startsWith_spec. split.
    + intros [rest H]. by exists "", rest.
    + intros (before & after & H). symmetry in H.
      apply append_is_empty in H as [-> H]. by exists after.
  - rewrite orb_true_iff, startsWith_spec, IH. split.
    + intros [[rest H] | (before & after & ->)].
      * by exists "", rest.
      * by exists (String a before), after.
    + intros (before & after & H). destruct before as [|b before]; simpl in H.
      * left. by exists after.
      * right. injection H as -> ->. by exists before, after.
Qed.

End StringFacts.

(** ** Regular expressions: [test] decides the language *)

Module RegExpFacts.
Import JsString RegExp StringFacts.

Lemma lang_void_inv s : ¬ lang Void s.
Proof. intros H. inversion H. Qed.

Lemma lang_eps_inv s : lang Eps s → s = "".
Proof. intros H. by inversion H. Qed.

Lemma lang_class_inv negated items s :
  lang (Class negated items) s →
  ∃ c, s = String c "" ∧ class_has negated items c = true.
Proof. intros H. inversion H; subst. by eexists. Qed.

Lemma lang_cat_inv r1 r2 s :
  lang (Cat r1 r2) s → ∃ s1 s2, s = s1 +:+ s2 ∧ lang r1 s1 ∧ lang r2 s2.
Proof. intros H. inversion H; subst. by eexists _, _. Qed.

Lemma lang_alt_inv r1 r2 s : lang (Alt r1 r2) s → lang r1 s ∨ lang r2 s.
Proof. intros H. inversion H; subst; [by left | by right]. Qed.

Lemma lang_cat_cons r1 r2 c s1 s2 :
  lang r1 (String c s1) → lang r2 s2 → lang (Cat r1 r2) (String c (s1 +:+ s2)).
Proof. intros H1 H2. by apply (lang_cat _ _ (String c s1) s2). Qed.

Lemma nullable_lang r : nullable r = true ↔ lang r "".
Proof.
  induction r as [| |negated items|r1 IH1 r2 IH2|r1 IH1 r2 IH2|r IH]; simpl.
  - split; [discriminate | intros H; inversion H].
  - split; [intros _; constructor | done].
  - split; [discriminate | intros H; inversion H].
  - rewrite andb_true_iff, IH1, IH2. split.
    + intros [H1 H2]. by apply (lang_cat _ _ "" "").
    + intros H. apply lang_cat_inv in H as (s1 & s2 & Hs & H1 & H2).
      symmetry in Hs. by apply append_is_empty in Hs as [-> ->].
  - rewrite orb_true_iff, IH1, IH2. split.
    + intros [H | H]; [by apply lang_alt_l | by apply lang_alt_r].
    + apply lang_alt_inv.
  - split; [intros _; constructor | done].
Qed.

(** A non-empty word of a starred pattern starts with a non-empty word of
    the pattern. *)
Lemma lang_star_cons_inv r c s :
  lang (Star r) (String c s) →
  ∃ s1 s2, s = s1 +:+ s2 ∧ lang r (String c s1) ∧ lang (Star r) s2.
Proof.
  intros H. remember (Star r) as r' eqn:Hr. remember (String c s) as w eqn:Hw.
  induction H as [| | | | | |r0 s1 s2 H1 _ H2 IH2]; try discriminate.
  injection Hr as ->.
  apply append_is_cons in Hw as [[-> ->] | (s1' & -> & ->)].
  - by apply IH2.
  - by exists s1', s2.
Qed.

Lemma deriv_lang c r s : lang (deriv c r) s ↔ lang r (String c s).
Proof.
  revert s.
  induction r as [| |negated items|r1 IH1 r2 IH2|r1 IH1 r2 IH2|r IH];
    intros s; simpl.
  - split; intros H; inversion H.
  - split; intros H; inversion H.
  - destruct (class_has negated items c) eqn:Hc; split; intros H.
    + apply lang_eps_inv in H as ->. by constructor.
    + apply lang_class_inv in H as (c' & [= -> ->] & _). constructor.
    + inversion H.
    + apply lang_class_inv in H as (c' & [= -> ->] & Hc'). congruence.
  - assert (Hcat : lang (Cat (deriv c r1) r2) s →
                   lang (Cat r1 r2) (String c s)).
    { intros H. apply lang_cat_inv in H as (s1 & s2 & -> & H1 & H2).
      apply lang_cat_cons; [by apply IH1 | done]. }
    destruct (nullable r1) eqn:Hn; split.
    + intros H. apply lang_alt_inv in H as [H | H]; [by apply Hcat |].
      apply (lang_cat _ _ "" (String c s)); [by apply nullable_lang | by apply IH2].
    + intros H. apply lang_cat_inv in H as (s1 & s2 & Hs & H1 & H2).
      symmetry in Hs.
      apply append_is_cons in Hs as [[-> ->] | (s1' & -> & ->)].
      * apply lang_alt_r. by apply IH2.
      * apply lang_alt_l. apply lang_cat; [by apply IH1 | done].
    + apply Hcat.
    + intros H. apply lang_cat_inv in H as (s1 & s2 & Hs & H1 & H2).
      symmetry in Hs.
      apply append_is_cons in Hs as [[-> ->] | (s1' & -> & ->)].
      * apply nullable_lang in H1. congruence.
      * apply lang_cat; [by apply IH1 | done].
  - split; intros H.
    + apply lang_alt_inv in H as [H | H];
        [apply lang_alt_l; by apply IH1 | apply lang_alt_r; by apply IH2].
    + apply lang_alt_inv in H as [H | H];
        [apply lang_alt_l; by apply IH1 | apply lang_alt_r; by apply IH2].
  - split; intros H.
    + apply lang_cat_inv in H as (s1 & s2 & -> & H1 & H2).
      apply (lang_star_cons _ (String c s1) s2); [by apply IH | done].
    + apply lang_star_cons_inv in H as (s1 & s2 & -> & H1 & H2).
      apply lang_cat; [by apply IH | done].
Qed.

(** [test] is membership in the language of the pattern. *)
Lemma test_lang r s : test r s = true ↔ lang r s.
Proof.
  revert r. induction s as [|c s IH]; intros r; simpl.
  - apply nullable_lang.
  - rewrite IH. apply deriv_lang.
Qed.

End RegExpFacts.

(** ** The languages of the quantified classes *)

Module PatternFacts.
Import JsString RegExp StringFacts RegExpFacts.

Lemma all_ext p q s : (∀ c, p c = q c) → all p s = all q s.
Proof. intros H. induction s as [|c s IH]; simpl; [done | by rewrite H, IH]. Qed.

Lemma lang_chr c s : lang (Chr c) s ↔ s = String c "".
Proof.
  unfold Chr. split.
  - intros H. apply lang_class_inv in H as (c' & -> & H).
    unfold class_has in H. simpl in H. rewrite orb_false_r in H.
    by apply Ascii.eqb_eq in H as ->.
  - intros ->. constructor. unfold class_has. simpl.
    by rewrite Ascii.eqb_refl.
Qed.

Lemma lang_opt r s : lang (Opt r) s ↔ s = "" ∨ lang r s.
Proof.
  unfold Opt. split.
  - intros H. apply lang_alt_inv in H as [H | H]; [left; by apply lang_eps_inv | by right].
  - intros [-> | H]; [apply lang_alt_l; constructor | by apply lang_alt_r].
Qed.

Lemma lang_seq_nil s : lang (Seq []) s ↔ s = "".
Proof. simpl. split; [apply lang_eps_inv | intros ->; constructor]. Qed.

Lemma lang_seq_cons r rs s :
  lang (Seq (r :: rs)) s ↔ ∃ s1 s2, s = s1 +:+ s2 ∧ lang r s1 ∧ lang (Seq rs) s2.
Proof.
  simpl. split; [apply lang_cat_inv |].
  intros (s1 & s2 & -> & H1 & H2). by constructor.
Qed.

Lemma lang_star_class negated items s :
  lang (Star (Class negated items)) s ↔ all (class_has negated items) s = true.
Proof.
  split.
  - intros H. remember (Star (Class negated items)) as r eqn:Hr.
    induction H as [| | | | | |r0 s1 s2 H1 _ H2 IH2]; try discriminate; [done |].
    injection Hr as ->.
    apply lang_class_inv in H1 as (c & -> & Hc). simpl.
    by rewrite Hc, IH2.
  - induction s as [|c s IH]; simpl; [constructor |].
    rewrite andb_true_iff. intros [Hc Hs].
    apply (lang_star_cons _ (String c "") s); [by constructor | by apply IH].
Qed.

Lemma lang_plus_class negated items s :
  lang (Plus (Class negated items)) s ↔
  s ≠ "" ∧ all (class_has negated items) s = true.
Proof.
  unfold Plus. split.
  - intros H. apply lang_cat_inv in H as (s1 & s2 & -> & H1 & H2).
    apply lang_class_inv in H1 as (c & -> & Hc).
    apply lang_star_class in H2. simpl. by rewrite Hc, H2.
  - destruct s as [|c s]; simpl; [by intros [[] _] |].
    rewrite andb_true_iff. intros [_ [Hc Hs]].
    apply (lang_cat _ _ (String c "") s); [by constructor | by apply lang_star_class].
Qed.

Lemma lang_at_least_class n negated items s :
  lang (AtLeast n (Class negated items)) s ↔
  all (class_has negated items) s = true ∧ n ≤ String.length s.
Proof.
  unfold AtLeast. revert s. induction n as [|n IH]; intros s; simpl.
  - split.
    + intros H. apply lang_cat_inv in H as (s1 & s2 & -> & H1 & H2).
      apply lang_eps_inv in H1 as ->. apply lang_star_class in H2.
      split; [done | lia].
    + intros [H _]. apply (lang_cat _ _ "" s); [constructor | by apply lang_star_class].
  - split.
    + intros H. apply lang_cat_inv in H as (s1 & s2 & -> & H1 & H2).
      apply lang_cat_inv in H1 as (a & s1' & -> & Ha & H1).
      apply lang_class_inv in Ha as (c & -> & Hc).
      assert (H : lang (Cat (Exactly n (Class negated items))
                            (Star (Class negated items))) (s1' +:+ s2))
        by by constructor.
      apply IH in H as [Hall Hlen]. simpl.
      rewrite Hc, Hall. split; [done | lia].
    + destruct s as [|c s]; simpl; [intros [_ H]; lia |].
      rewrite andb_true_iff. intros [[Hc Hs] Hlen].
      assert (H : lang (Cat (Exactly n (Class negated items))
                            (Star (Class negated items))) s)
        by (apply IH; split; [done | lia]).
      apply lang_cat_inv in H as (s1 & s2 & -> & H1 & H2).
      apply (lang_cat _ _ (String c s1) s2); [| done].
      apply (lang_cat _ _ (String c "") s1); [by constructor | done].
Qed.

End PatternFacts.

(** ** The field validator *)

Module ValidatorFacts.
Import JsString JsNumber RegExp StringFacts RegExpFacts PatternFacts UserManagement.

Lemma email_class c : class_has true [Spaces; One "@"] c = email_unit c.
Proof.
  unfold class_has, email_unit. cbn [existsb item_has].
  rewrite orb_false_r, (Ascii.eqb_sym "@" c).
  by destruct (is_space c), (Ascii.eqb c "@").
Qed.

Lemma phone_class c : class_has false [Digits; Spaces; One "-"] c = phone_unit c.
Proof.
  unfold class_has, phone_unit. cbn [existsb item_has xorb].
  by rewrite orb_false_r, (Ascii.eqb_sym "-" c), orb_assoc.
Qed.

Lemma lang_email_part s :
  lang (Plus (Class true [Spaces; One "@"])) s ↔ s ≠ "" ∧ all email_unit s = true.
Proof. rewrite lang_plus_class. by rewrite (all_ext _ _ s email_class). Qed.

(** The email pattern accepts exactly the shape [x@y.z]. *)
Lemma email_pattern_shape s : test email_pattern s = true ↔ email_shape s.
Proof.
  rewrite test_lang. unfold email_pattern, email_shape. split.
  - intros H.
    apply lang_seq_cons in H as (x & s1 & -> & Hx & H).
    apply lang_seq_cons in H as (a & s2 & -> & Ha & H).
    apply lang_seq_cons in H as (y & s3 & -> & Hy & H).
    apply lang_seq_cons in H as (d & s4 & -> & Hd & H).
    apply lang_seq_cons in H as (z & s5 & -> & Hz & H).
    apply lang_seq_nil in H as ->.
    apply lang_chr in Ha as ->. apply lang_chr in Hd as ->.
    apply lang_email_part in Hx as [Hx1 Hx2].
    apply lang_email_part in Hy as [Hy1 Hy2].
    apply lang_email_part in Hz as [Hz1 Hz2].
    exists x, y, z. by rewrite append_empty_r.
  - intros (x & y & z & -> & Hx1 & Hy1 & Hz1 & Hx2 & Hy2 & Hz2).
    apply lang_seq_cons. exists x, ("@" +:+ y +:+ "." +:+ z).
    split; [done |]. split; [by apply lang_email_part |].
    apply lang_seq_cons. exists "@", (y +:+ "." +:+ z).
    split; [done |]. split; [by apply lang_chr |].
    apply lang_seq_cons. exists y, ("." +:+ z).
    split; [done |]. split; [by apply lang_email_part |].
    apply lang_seq_cons. exists ".", z.
    split; [done |]. split; [by apply lang_chr |].
    apply lang_seq_cons. exists z, "".
    split; [by rewrite append_empty_r |]. split; [by apply lang_email_part |].
    by apply lang_seq_nil.
Qed.

(** The phone pattern accepts exactly an optional plus sign and then ten or
    more digits or separators. *)
Lemma phone_pattern_shape s : test phone_pattern s = true ↔ phone_shape s.
Proof.
  rewrite test_lang. unfold phone_pattern, phone_shape. split.
  - intros H.
    apply lang_seq_cons in H as (p & s1 & -> & Hp & H).
    apply lang_seq_cons in H as (body & s2 & -> & Hb & H).
    apply lang_seq_nil in H as ->. rewrite append_empty_r.
    apply lang_at_least_class in Hb as [Hall Hlen].
    rewrite (all_ext _ _ body phone_class) in Hall.
    exists body. split; [| done].
    apply lang_opt in Hp as [-> | Hp]; [by left |].
    apply lang_chr in Hp as ->. by right.
  - intros (body & Hs & Hall & Hlen).
    assert (Hb : lang (AtLeast 10 (Class false [Digits; Spaces; One "-"])) body).
    { apply lang_at_least_class. by rewrite (all_ext _ _ body phone_class). }
    apply lang_seq_cons.
    destruct Hs as [-> | ->]; [exists "", body | exists "+", body];
      (split; [done |]); (split; [apply lang_opt; first [by left | right; by apply lang_chr] |]);
      apply lang_seq_cons; exists body, ""; rewrite append_empty_r;
      (split; [done |]); (split; [done | by apply lang_seq_nil]).
Qed.

Lemma validation_error_email value :
  validation_error "email" value =
  if RegExp.test email_pattern value then "" else "Invalid email format".
Proof. unfold validation_error. simpl. by destruct (test email_pattern value). Qed.

Lemma validation_error_phone value :
  validation_error "phone" value =
  if RegExp.test phone_pattern value then "" else "Invalid phone number".
Proof. unfold validation_error. simpl. by destruct (test phone_pattern value). Qed.

Lemma email_valid_iff value : validation_error "email" value = "" ↔ email_shape value.
Proof.
  rewrite validation_error_email, <- email_pattern_shape.
  by destruct (test email_pattern value).
Qed.

Lemma phone_valid_iff value : validation_error "phone" value = "" ↔ phone_shape value.
Proof.
  rewrite validation_error_phone, <- phone_pattern_shape.
  by destruct (test phone_pattern value).
Qed.

(** Ten digits among digits and separators are ten code units at least:
    what the specification describes is accepted. *)
Lemma phone_ten_digits_shape value : phone_ten_digits value → phone_shape value.
Proof.
  intros (body & Hs & Hall & Hlen). exists body.
  split; [done |]. split; [done |].
  pose proof (count_le_length is_digit body). lia.
Qed.

(** The rule of the name field: three code units at least. *)
Lemma name_validator value :
  validation_error "name" value =
  if decide (String.length value < 3)
  then "Name must be at least 3 characters long" else "".
Proof.
  unfold validation_error. cbn [String.eqb Ascii.eqb Bool.eqb].
  destruct (Nat.ltb_spec (String.length value) 3);
    [by rewrite decide_True | by rewrite decide_False by lia].
Qed.

(** The rule of the street and city fields: not empty. *)
Lemma required_validator value :
  validation_error "street" value = (if value is "" then "Street is required" else "") ∧
  validation_error "city" value = (if value is "" then "City is required" else "").
Proof. by destruct value. Qed.

(** The company name is optional: only a short one that is not empty gets a
    message. *)
Lemma company_validator value :
  validation_error "company.name" value =
  if decide (value ≠ "" ∧ String.length value < 3)
  then "Company name must be at least 3 characters long" else "".
Proof.
  unfold validation_error. cbn [String.eqb Ascii.eqb Bool.eqb orb].
  destruct value as [|c value].
  - by rewrite decide_False by (by intros [H _]).
  - cbn [truthy andb].
    destruct (Nat.ltb_spec (String.length (String c value)) 3).
    + by rewrite decide_True.
    + by rewrite decide_False by (intros [_ H']; lia).
Qed.

(** The website is optional too; some addresses the pattern takes and some
    it turns down. *)
Lemma website_validator_samples :
  validation_error "website" "" = "" ∧
  validation_error "website" "example.org" = "" ∧
  validation_error "website" "https://example.org/a/b.html" = "" ∧
  validation_error "website" "example" = "Invalid website URL" ∧
  validation_error "website" "ftp://example.org" = "Invalid website URL".
Proof. by vm_compute. Qed.

(** The login handle of "Jane Doe". *)
Lemma login_handle_sample : login_handle (Some "Jane Doe") = "USER-jane-doe".
Proof. by vm_compute. Qed.

(** C9: a value that is not of the shape [x@y.z] (three non-empty parts free
    of white space and of at-signs) gets the message "Invalid email format"
    from the validator of the email field, and [a@b.co] gets none. *)
Theorem email_validator_shape :
  (∀ value, ¬ email_shape value →
            validation_error "email" value = "Invalid email format") ∧
  validation_error "email" "a@b.co" = "".
Proof.
  split; [| by vm_compute].
  intros value H. rewrite validation_error_email.
  destruct (test email_pattern value) eqn:Ht; [| done].
  by apply email_pattern_shape in Ht.
Qed.

(** C9 at the value [a@b], which has no dot after the at-sign. *)
Lemma email_validator_shape_witness :
  ¬ email_shape "a@b" ∧ validation_error "email" "a@b" = "Invalid email format".
Proof.
  assert (H : ¬ email_shape "a@b").
  { intros H. apply email_pattern_shape in H. vm_compute in H. discriminate. }
  split; [exact H | exact (proj1 email_validator_shape "a@b" H)].
Defined.

(** C3 fails on ten hyphens: no digit at all, and no error. *)
Lemma phone_ten_hyphens_pass : ¬ phone_as_stated "----------".
Proof.
  intros H. apply H; [| by vm_compute].
  intros (body & [<- | Hs] & _ & Hlen); [| discriminate].
  vm_compute in Hlen. lia.
Qed.

(** C3, amended: the validator of the phone field reports "Invalid phone
    number" unless the value is an optional plus sign followed by ten or
    more code units, each a digit, a white space or a hyphen; separators
    count towards the ten. *)
Theorem phone_validator_shape value :
  (phone_shape value → validation_error "phone" value = "") ∧
  (¬ phone_shape value → validation_error "phone" value = "Invalid phone number").
Proof.
  rewrite validation_error_phone.
  destruct (test phone_pattern value) eqn:Ht.
  - apply phone_pattern_shape in Ht. by split.
  - split; [| done]. intros H. apply phone_pattern_shape in H. congruence.
Qed.

(** C3, amended, at a number with nine digits and a hyphen, and at a word. *)
Lemma phone_validator_shape_witness :
  validation_error "phone" "12345-6789" = "" ∧
  validation_error "phone" "telephone!" = "Invalid phone number".
Proof.
  split.
  - apply (proj1 (phone_validator_shape "12345-6789")).
    exists "12345-6789". split; [by left |]. split; [by vm_compute | simpl; lia].
  - apply (proj2 (phone_validator_shape "telephone!")).
    intros H. apply phone_pattern_shape in H. vm_compute in H. discriminate.
Defined.

End ValidatorFacts.

(** ** Identifiers *)

Module NumberFacts.
Import JsNumber UserManagement.
Local Open Scope Z_scope.

(** Up to 2^53 in magnitude an integer is stored as it is. *)
Lemma round53_exact z : - 2 ^ 53 ≤ z ≤ 2 ^ 53 → round53 z = z.
Proof.
  intros Hz.
  destruct (decide (z = 2 ^ 53)) as [-> | Hhi]; [by vm_compute |].
  destruct (decide (z = - 2 ^ 53)) as [-> | Hlo]; [by vm_compute |].
  unfold round53.
  assert (Hlog : Z.log2 (Z.abs z) < 53).
  { destruct (decide (z = 0)) as [-> | Hnz]; [by vm_compute |].
    apply Z.log2_lt_pow2; lia. }
  destruct (Z.leb_spec (Z.log2 (Z.abs z) + 1 - 53) 0); [done | lia].
Qed.

Lemma add_one_safe z : safe_integer z → add (Int z) (Int 1) = Int (z + 1).
Proof.
  unfold safe_integer. intros Hz. simpl.
  rewrite round53_exact; [done | lia].
Qed.

(** Beyond the safe integers adding one can leave the number as it is:
    2^53 is a double, 2^53 + 1 is not. *)
Lemma add_one_lost :
  is_double (2 ^ 53) = true ∧ is_double (2 ^ 53 + 1) = false ∧
  add (Int (2 ^ 53)) (Int 1) = Int (2 ^ 53).
Proof. by vm_compute. Qed.

Lemma Math_max_empty : Math_max [] = NegInfinity.
Proof. done. Qed.

Lemma add_one_neg_infinity : add NegInfinity (Int 1) = NegInfinity.
Proof. done. Qed.

(** On integers [Math.max] returns the greatest one. *)
Lemma Math_max_greatest (l : list number) :
  l ≠ [] → Forall (λ a, ∃ z, a = Int z) l →
  ∃ m, Math_max l = Int m ∧ greatest m l.
Proof.
  induction l as [|a l IH]; [done |]. intros _ Hall.
  apply Forall_cons in Hall as [[z ->] Hall].
  destruct l as [|b l].
  - exists z. split; [done |]. split; [set_solver |].
    intros a Ha. apply list_elem_of_singleton in Ha as ->. exists z. split; [done | lia].
  - destruct (IH ltac:(done) Hall) as (m & Hm & Hin & Hle).
    exists (Z.max z m). split.
    + change (Math_max (Int z :: b :: l)) with (max2 (Int z) (Math_max (b :: l))).
      by rewrite Hm.
    + split.
      * destruct (Z.max_spec z m) as [[_ ->] | [_ ->]];
          [apply elem_of_cons; by right | apply elem_of_cons; by left].
      * intros a Ha. apply elem_of_cons in Ha as [-> | Ha].
        -- exists z. split; [done | lia].
        -- destruct (Hle a Ha) as (y & -> & Hy). exists y. split; [done | lia].
Qed.

Lemma greatest_unique m1 m2 l : greatest m1 l → greatest m2 l → m1 = m2.
Proof.
  intros [Hin1 Hle1] [Hin2 Hle2].
  destruct (Hle1 _ Hin2) as (z2 & [= <-] & H2).
  destruct (Hle2 _ Hin1) as (z1 & [= <-] & H1). lia.
Qed.

Lemma safe_ids_ints l : safe_ids l → Forall (λ a, ∃ z, a = Int z) (user_id <$> l).
Proof.
  intros H. apply Forall_fmap. eapply Forall_impl; [exact H |].
  intros u (z & Hz & _). by exists z.
Qed.

Lemma safe_ids_greatest l m :
  safe_ids l → greatest m (user_id <$> l) → safe_integer m.
Proof.
  intros Hsafe [Hin _]. apply list_elem_of_fmap in Hin as (u & Hu & Hin).
  unfold safe_ids in Hsafe. rewrite Forall_forall in Hsafe.
  destruct (Hsafe u Hin) as (z & Hz & Hs). congruence.
Qed.

(** The identifier of a new record, on a set that is not empty and whose
    identifiers are safe integers. *)
Lemma newUser_id l fd :
  l ≠ [] → safe_ids l →
  ∃ m, greatest m (user_id <$> l) ∧ user_id (newUser l fd) = Int (m + 1).
Proof.
  intros Hne Hsafe.
  destruct (Math_max_greatest (user_id <$> l)) as (m & Hm & Hg).
  { by destruct l. }
  { by apply safe_ids_ints. }
  exists m. split; [done |]. simpl. rewrite Hm.
  apply add_one_safe. by eapply safe_ids_greatest.
Qed.

End NumberFacts.

(** ** The session controller *)

Module SessionFacts.
Import JsString JsNumber StringFacts NumberFacts UserManagement.

(** [has_errors] finds exactly the messages that are not empty. *)
Lemma has_errors_spec errors : has_errors errors = true ↔ some_error errors.
Proof.
  unfold has_errors, some_error. rewrite existsb_exists. split.
  - intros (message & Hin & Hm). apply list_elem_of_In in Hin.
    apply list_elem_of_fmap in Hin as ([key message'] & -> & Hin).
    apply elem_of_map_to_list in Hin. exists key, message'.
    split; [done | by apply truthy_true].
  - intros (key & message & Hk & Hm). exists message.
    split; [| by apply truthy_true].
    apply list_elem_of_In, list_elem_of_fmap. exists (key, message).
    split; [done | by apply elem_of_map_to_list].
Qed.

Lemma has_errors_false errors : has_errors errors = false ↔ ¬ some_error errors.
Proof.
  rewrite <- has_errors_spec. by destruct (has_errors errors).
Qed.

Lemma no_error_in_empty : ¬ some_error ∅.
Proof. intros (key & message & H & _). by rewrite lookup_empty in H. Qed.

Lemma handleSubmit_rejects st :
  some_error (formErrors st) →
  handleSubmit st = (st, Some "Please correct the form errors before submitting").
Proof.
  intros H. apply has_errors_spec in H. unfold handleSubmit. by rewrite H.
Qed.

Lemma handleSubmit_create st :
  formMode st = Some create → ¬ some_error (formErrors st) →
  handleSubmit st =
  (close_form (setUsers (users st ++ [newUser (users st) (formData st)]) st),
   Some "User created successfully!").
Proof.
  intros Hm H. apply has_errors_false in H. unfold handleSubmit.
  by rewrite H, Hm.
Qed.

Lemma handleSubmit_edit st cu :
  formMode st = Some edit → currentUser st = Some cu →
  ¬ some_error (formErrors st) →
  handleSubmit st =
  (close_form (setUsers (updatedUsers (users st) cu (formData st)) st),
   Some "User updated successfully!").
Proof.
  intros Hm Hc H. apply has_errors_false in H. unfold handleSubmit.
  by rewrite H, Hm, Hc.
Qed.

End SessionFacts.

(** ** Creating a record *)

Module CreateFacts.
Import JsString JsNumber StringFacts NumberFacts SessionFacts UserManagement.

(** The page after the fetch failed and "Create User" was pressed: an empty
    record set, an empty draft, an empty error map. *)
Lemma empty_create_session :
  run initial [on_load_failed; on_create] =
  Some (open_create (setLoading false initial)).
Proof. done. Qed.

(** C1 fails on the empty record set: no identifier is the greatest, and
    the new record gets [-Infinity]. *)
Lemma next_id_on_empty_set :
  ¬ next_id_as_stated (open_create (setLoading false initial)).
Proof.
  intros H. destruct (H eq_refl no_error_in_empty) as (m & u & [Hin _] & _).
  simpl in Hin. by apply elem_of_nil in Hin.
Qed.

(** What the code assigns there. *)
Lemma next_id_on_empty_set_value fd : user_id (newUser [] fd) = NegInfinity.
Proof. done. Qed.

(** A greatest identifier of 2^53 is assigned again: the sum is rounded. *)
Lemma next_id_rounded fd :
  user_id (newUser [served (2 ^ 53) "Jane"] fd) = Int (2 ^ 53).
Proof. by vm_compute. Qed.

(** C1, amended: on a record set that is not empty and whose identifiers
    are integers below 2^53 in magnitude, a valid submit of a create session
    appends a record whose identifier is the greatest identifier of the set
    plus one; with the identifiers 1, 3 and 7 it is 8. *)
Theorem create_assigns_next_id :
  (∀ st, formMode st = Some create → ¬ some_error (formErrors st) →
         users st ≠ [] → safe_ids (users st) →
         ∃ m u, greatest m (user_id <$> (users st)) ∧
                users (fst (handleSubmit st)) = users st ++ [u] ∧
                user_id u = Int (m + 1)) ∧
  (∀ st, formMode st = Some create → ¬ some_error (formErrors st) →
         user_id <$> (users st) = [Int 1; Int 3; Int 7] →
         ∃ u, users (fst (handleSubmit st)) = users st ++ [u] ∧
              user_id u = Int 8).
Proof.
  split.
  - intros st Hmode Hok Hne Hsafe.
    destruct (newUser_id (users st) (formData st) Hne Hsafe) as (m & Hg & Hid).
    exists m, (newUser (users st) (formData st)).
    rewrite (handleSubmit_create st Hmode Hok). by split.
  - intros st Hmode Hok Hids.
    exists (newUser (users st) (formData st)).
    rewrite (handleSubmit_create st Hmode Hok). split; [done |].
    simpl. by rewrite Hids.
Qed.

(** C1, amended, on the identifiers 1, 3 and 7. *)
Lemma create_assigns_next_id_witness :
  let st := open_create
              (setLoading false
                 (setUsers [served 1 "Jane"; served 3 "Anna"; served 7 "Bob"] initial)) in
  formMode st = Some create ∧ ¬ some_error (formErrors st) ∧
  users st ≠ [] ∧ safe_ids (users st) ∧
  ∃ m u, greatest m (user_id <$> (users st)) ∧
         users (fst (handleSubmit st)) = users st ++ [u] ∧
         user_id u = Int (m + 1).
Proof.
  intros st.
  assert (Hmode : formMode st = Some create) by reflexivity.
  assert (Hok : ¬ some_error (formErrors st)) by exact no_error_in_empty.
  assert (Hne : users st ≠ []) by discriminate.
  assert (Hsafe : safe_ids (users st)).
  { repeat constructor; eexists; (split; [reflexivity | unfold safe_integer; lia]). }
  repeat split; try assumption.
  exact (proj1 create_assigns_next_id st Hmode Hok Hne Hsafe).
Defined.

(** C2, on the empty record set: after a failed fetch two users created one
    after the other both get the identifier [-Infinity], so the records of
    the set no longer have identifiers of their own. *)
Theorem unique_ids_lost_on_empty_set :
  ∃ st, run initial two_creates_on_empty = Some st ∧
        user_id <$> (users st) = [NegInfinity; NegInfinity] ∧
        ¬ unique_ids (users st).
Proof.
  eexists. split; [by vm_compute |]. split; [done |].
  unfold unique_ids. simpl. intros H. apply NoDup_cons in H as [H _].
  apply H. by left.
Qed.

End CreateFacts.

(** ** Submitting *)

Module SubmitFacts.
Import JsString JsNumber StringFacts NumberFacts SessionFacts UserManagement.

Lemma rejected_spec st : rejected st ↔ some_error (formErrors st).
Proof.
  split; [| apply handleSubmit_rejects].
  unfold rejected, handleSubmit. intros H.
  apply has_errors_spec. destruct (has_errors (formErrors st)); [done |].
  destruct (formMode st) as [[]|], (currentUser st); by inversion H.
Qed.

(** C4: in an open create or edit session a submit is turned down when the
    error map holds a message that is not empty, and then nothing changes:
    the session stays open and the record set is as before; when the map
    holds no such message the submit commits the draft to the record set
    and closes the session. *)
Theorem submit_guard st :
  session_open st →
  (some_error (formErrors st) →
     rejected st ∧
     session_open (fst (handleSubmit st)) ∧
     users (fst (handleSubmit st)) = users st) ∧
  (¬ some_error (formErrors st) →
     ¬ rejected st ∧
     users (fst (handleSubmit st)) = committed st ∧
     formMode (fst (handleSubmit st)) = None ∧
     currentUser (fst (handleSubmit st)) = None ∧
     formData (fst (handleSubmit st)) = empty_draft).
Proof.
  intros Hopen. split.
  - intros Herr. pose proof (handleSubmit_rejects st Herr) as H.
    split; [exact H |]. by rewrite H.
  - intros Hok. split; [by rewrite rejected_spec |].
    unfold committed.
    destruct Hopen as [Hmode | [Hmode [cu Hcu]]].
    + rewrite (handleSubmit_create st Hmode Hok), Hmode. done.
    + rewrite (handleSubmit_edit st cu Hmode Hcu Hok), Hmode, Hcu. done.
Qed.

(** C4 on a create session with one touched field: first with a name that
    is too short, then with a name that is long enough. *)
Lemma submit_guard_witness :
  let opened := open_create (setLoading false initial) in
  let bad := handleInputChange f_name "Al" opened in
  let good := handleInputChange f_name "Alice" opened in
  (session_open bad ∧ some_error (formErrors bad) ∧
   rejected bad ∧ users (fst (handleSubmit bad)) = users bad) ∧
  (session_open good ∧ ¬ some_error (formErrors good) ∧
   formMode (fst (handleSubmit good)) = None ∧
   users (fst (handleSubmit good)) = committed good).
Proof.
  intros opened bad good.
  assert (Hbad : session_open bad) by (left; reflexivity).
  assert (Hgood : session_open good) by (left; reflexivity).
  assert (Herr : some_error (formErrors bad))
    by (apply has_errors_spec; vm_compute; reflexivity).
  assert (Hok : ¬ some_error (formErrors good))
    by (apply has_errors_false; vm_compute; reflexivity).
  split.
  - destruct (proj1 (submit_guard bad Hbad) Herr) as (H1 & _ & H3).
    exact (conj Hbad (conj Herr (conj H1 H3))).
  - destruct (proj2 (submit_guard good Hgood) Hok) as (_ & H2 & H3 & _).
    exact (conj Hgood (conj Hok (conj H3 H2))).
Defined.

(** C5: whether a submit is turned down is decided by the error map alone,
    and the map holds an entry only for a field that was edited; so the
    create session in which no field was edited is not turned down, whatever
    the draft lacks, and it appends a record with no name, no email and no
    phone and with an empty street and city. *)
Theorem untouched_fields_pass_submit :
  (∀ st, rejected st ↔ some_error (formErrors st)) ∧
  (∀ st f value key,
      key ≠ field_key f →
      formErrors (handleInputChange f value st) !! key = formErrors st !! key) ∧
  (∃ st u,
      run initial [on_load_failed; on_create] = Some st ∧
      formMode st = Some create ∧ formData st = empty_draft ∧ formErrors st = ∅ ∧
      ¬ rejected st ∧
      users (fst (handleSubmit st)) = users st ++ [u] ∧
      user_name u = None ∧ user_email u = None ∧ user_phone u = None ∧
      address_street (user_address u) = "" ∧ address_city (user_address u) = "").
Proof.
  split; [exact rejected_spec |]. split.
  - intros st f value key Hkey. simpl. by rewrite lookup_insert_ne.
  - exists (open_create (setLoading false initial)), (newUser [] empty_draft).
    split; [done |]. do 3 (split; [done |]).
    split; [rewrite rejected_spec; exact no_error_in_empty | done].
Qed.

(** C10: a valid submit of a create session appends a record whose company
    name, street and city are the empty string when the draft has no entry
    for them, and whose website is absent, not the empty string, when the
    draft has no entry for it. *)
Theorem create_defaults st :
  formMode st = Some create → ¬ some_error (formErrors st) →
  ∃ u, users (fst (handleSubmit st)) = users st ++ [u] ∧
       (fd_company_name (formData st) = None → company_name (user_company u) = "") ∧
       (fd_street (formData st) = None → address_street (user_address u) = "") ∧
       (fd_city (formData st) = None → address_city (user_address u) = "") ∧
       (fd_website (formData st) = None →
          user_website u = None ∧ user_website u ≠ Some "").
Proof.
  intros Hmode Hok. exists (newUser (users st) (formData st)).
  rewrite (handleSubmit_create st Hmode Hok).
  split; [done |]. simpl.
  split; [by intros -> |]. split; [by intros -> |]. split; [by intros -> |].
  intros ->. by split.
Qed.

(** C10 on a create session in which only the name was typed. *)
Lemma create_defaults_witness :
  let st := handleInputChange f_name "Alice"
              (open_create (setLoading false (setUsers [served 1 "Jane"] initial))) in
  formMode st = Some create ∧ ¬ some_error (formErrors st) ∧
  ∃ u, users (fst (handleSubmit st)) = users st ++ [u] ∧
       (fd_company_name (formData st) = None → company_name (user_company u) = "") ∧
       (fd_street (formData st) = None → address_street (user_address u) = "") ∧
       (fd_city (formData st) = None → address_city (user_address u) = "") ∧
       (fd_website (formData st) = None →
          user_website u = None ∧ user_website u ≠ Some "").
Proof.
  intros st.
  assert (Hmode : formMode st = Some create) by reflexivity.
  assert (Hok : ¬ some_error (formErrors st))
    by (apply has_errors_false; vm_compute; reflexivity).
  split; [exact Hmode |]. split; [exact Hok |].
  exact (create_defaults st Hmode Hok).
Defined.

End SubmitFacts.

(** ** Editing a record *)

Module EditFacts.
Import JsString JsNumber StringFacts NumberFacts SessionFacts UserManagement.

Lemma draft_or_spec draft before :
  kept_or_overwritten draft before (draft_or draft before).
Proof.
  split.
  - by intros [-> | ->].
  - intros v -> Hv. simpl. by apply or_else_nonempty.
Qed.

Lemma over_spec {A : Type} (draft before : option A) :
  merged_over draft before (over draft before).
Proof. by destruct draft. Qed.

(** C6: a valid submit of an edit session leaves a record set of the same
    length in which every record whose identifier differs from that of the
    record under edit is as before, and every record with that identifier
    is the draft merged over it: the company name, the street and the city
    keep the value of the record when the draft field is absent or empty and
    take the value of the draft otherwise; name, email, phone and website
    take the value of the draft when it has one. *)
Theorem edit_merges_draft st cu :
  formMode st = Some edit → currentUser st = Some cu →
  ¬ some_error (formErrors st) →
  length (users (fst (handleSubmit st))) = length (users st) ∧
  ∀ i u, users st !! i = Some u →
    (user_id u ≠ user_id cu → users (fst (handleSubmit st)) !! i = Some u) ∧
    (user_id u = user_id cu →
       ∃ u', users (fst (handleSubmit st)) !! i = Some u' ∧
         kept_or_overwritten (fd_company_name (formData st))
           (company_name (user_company u)) (company_name (user_company u')) ∧
         kept_or_overwritten (fd_street (formData st))
           (address_street (user_address u)) (address_street (user_address u')) ∧
         kept_or_overwritten (fd_city (formData st))
           (address_city (user_address u)) (address_city (user_address u')) ∧
         merged_over (fd_name (formData st)) (user_name u) (user_name u') ∧
         merged_over (fd_email (formData st)) (user_email u) (user_email u') ∧
         merged_over (fd_phone (formData st)) (user_phone u) (user_phone u') ∧
         merged_over (fd_website (formData st)) (user_website u) (user_website u')).
Proof.
  intros Hmode Hcu Hok. rewrite (handleSubmit_edit st cu Hmode Hcu Hok).
  cbn [fst users close_form setFormData setCurrentUser setFormMode setUsers].
  unfold updatedUsers. split; [apply length_fmap |].
  intros i u Hi. rewrite list_lookup_fmap, Hi. cbn [fmap option_fmap option_map].
  split; intros Hid.
  - by rewrite bool_decide_eq_false_2.
  - rewrite bool_decide_eq_true_2 by done.
    exists (updatedUser u (formData st)). split; [done |].
    cbn [updatedUser company_name user_company address_street address_city
         user_address user_name user_email user_phone user_website].
    repeat split; first [apply draft_or_spec | apply over_spec].
Qed.

(** C6 on the second of three records, the company name blanked and a new
    city typed: the company name of the record stays, the city is the new
    one. *)
Lemma edit_merges_draft_witness :
  let cu := served 3 "Anna" in
  let st := handleInputChange f_city "Lisbon"
              (handleInputChange f_company_name ""
                 (open_edit cu
                    (setLoading false
                       (setUsers [served 1 "Jane"; cu; served 7 "Bob"] initial)))) in
  formMode st = Some edit ∧ currentUser st = Some cu ∧
  ¬ some_error (formErrors st) ∧
  ∃ u', users (fst (handleSubmit st)) !! 1 = Some u' ∧
        company_name (user_company u') = "Romaguera-Crona" ∧
        address_city (user_address u') = "Lisbon".
Proof.
  intros cu st.
  assert (Hmode : formMode st = Some edit) by reflexivity.
  assert (Hcu : currentUser st = Some cu) by reflexivity.
  assert (Hok : ¬ some_error (formErrors st))
    by (apply has_errors_false; vm_compute; reflexivity).
  split; [exact Hmode |]. split; [exact Hcu |]. split; [exact Hok |].
  destruct (proj2 (edit_merges_draft st cu Hmode Hcu Hok) 1 cu eq_refl) as [_ H].
  destruct (H eq_refl) as (u' & Hu' & Hcompany & _ & Hcity & _).
  exists u'. split; [exact Hu' |]. split.
  - apply (proj1 Hcompany). right. reflexivity.
  - apply (proj2 Hcity "Lisbon"); [reflexivity | discriminate].
Defined.

(** A street blanked in the form itself never reaches the merge: the
    validator files a message for it and the submit is turned down. *)
Lemma blank_street_is_turned_down st :
  some_error (formErrors (handleInputChange f_street "" st)).
Proof.
  exists "street", "Street is required". split; [| discriminate].
  cbn [handleInputChange validateField formErrors setFormErrors field_key].
  by rewrite lookup_insert_eq.
Qed.

End EditFacts.

(** ** Deleting a record *)

Module DeleteFacts.
Import JsString JsNumber StringFacts NumberFacts SessionFacts UserManagement.

(** Where no record has the identifier the filter drops nothing. *)
Lemma filter_other_ids id (l : list User) :
  id ∉ user_id <$> l → filter (λ user, user_id user ≠ id) l = l.
Proof.
  induction l as [|u l IH]; [done |]. intros Hid.
  rewrite fmap_cons, not_elem_of_cons in Hid. destruct Hid as [Hu Hl].
  rewrite filter_cons_True by done. by rewrite IH.
Qed.

(** With identifiers of their own, the filter drops one record. *)
Lemma filter_unique_id id (l : list User) :
  unique_ids l → id ∈ user_id <$> l →
  ∃ before u after,
    l = before ++ u :: after ∧ user_id u = id ∧
    filter (λ user, user_id user ≠ id) l = before ++ after.
Proof.
  unfold unique_ids. intros Hnodup Hin.
  apply list_elem_of_fmap in Hin as (u & -> & Hin).
  apply list_elem_of_split in Hin as (before & after & ->).
  exists before, u, after. split; [done |]. split; [done |].
  rewrite fmap_app, fmap_cons in Hnodup.
  apply NoDup_app in Hnodup as (_ & Hbefore & Hafter).
  apply NoDup_cons in Hafter as [Hafter _].
  rewrite filter_app, filter_cons_False by (intros H; by apply H).
  rewrite !filter_other_ids; [done | done |].
  intros H. apply (Hbefore _ H). by left.
Qed.

(** C7: confirming the deletion of an identifier of the record set returns
    the confirmor to idle and leaves the records with another identifier,
    all of them and in their order; no record with the identifier stays,
    and when the records have identifiers of their own exactly one record
    goes.  Cancelling returns the confirmor to idle and leaves the record
    set as it is. *)
Theorem confirm_delete_removes id st :
  id ∈ user_id <$> users st →
  deleteConfirmation (fst (handleDelete id st)) = None ∧
  (∀ u, u ∈ users (fst (handleDelete id st)) ↔ u ∈ users st ∧ user_id u ≠ id) ∧
  users (fst (handleDelete id st)) `sublist_of` users st ∧
  length (users (fst (handleDelete id st))) < length (users st) ∧
  (unique_ids (users st) →
     ∃ before u after,
       users st = before ++ u :: after ∧ user_id u = id ∧
       users (fst (handleDelete id st)) = before ++ after) ∧
  deleteConfirmation (cancel_delete st) = None ∧
  users (cancel_delete st) = users st.
Proof.
  intros Hin. cbn [handleDelete fst users deleteConfirmation
                   setDeleteConfirmation setUsers cancel_delete].
  split; [done |]. split.
  { intros u. rewrite list_elem_of_filter. tauto. }
  split; [apply sublist_filter |]. split.
  { apply list_elem_of_fmap in Hin as (u & -> & Hu).
    apply (length_filter_lt _ _ u); [done | by intros H]. }
  split; [| done].
  intros Hunique. by apply filter_unique_id.
Qed.

(** C7 on the identifier 5 among 2, 5 and 9. *)
Lemma confirm_delete_removes_witness :
  let st := ask_delete (Int 5)
              (setLoading false
                 (setUsers [served 2 "Jane"; served 5 "Anna"; served 9 "Bob"] initial)) in
  Int 5 ∈ user_id <$> users st ∧
  users (fst (handleDelete (Int 5) st)) = [served 2 "Jane"; served 9 "Bob"] ∧
  length (users (fst (handleDelete (Int 5) st))) < length (users st).
Proof.
  intros st.
  assert (Hin : Int 5 ∈ user_id <$> users st) by (right; left).
  split; [exact Hin |]. split; [reflexivity |].
  exact (proj1 (proj2 (proj2 (proj2 (confirm_delete_removes (Int 5) st Hin))))).
Defined.

End DeleteFacts.

(** ** Strings with Greek letters: the model and its restriction *)

Module WideFacts.
Import JsString StringFacts UserManagement.

Lemma place_inj g1 g2 : Wide.place g1 = Wide.place g2 → g1 = g2.
Proof. destruct g1, g2; (done || discriminate). Qed.

Lemma place_bound g : (Wide.place g ≤ 24 ∧ Wide.place g ≠ 17)%N.
Proof. destruct g; vm_compute; split; discriminate. Qed.

(** Different units have different numbers. *)
Lemma code_point_inj u v : Wide.code_point u = Wide.code_point v → u = v.
Proof.
  destruct u as [c|g|g|], v as [d|h|h|]; simpl; intros H;
    try (pose proof (N_ascii_bounded c)); try (pose proof (N_ascii_bounded d));
    try (pose proof (place_bound g)); try (pose proof (place_bound h));
    unfold code in *;
    first [ done | lia | f_equal; apply place_inj; lia | idtac ].
  f_equal. rewrite <- (ascii_N_embedding c), <- (ascii_N_embedding d). by rewrite H.
Qed.

Lemma wide_startsWith_spec (s t : Wide.text) :
  Wide.startsWith s t = true ↔ ∃ rest, s = t ++ rest.
Proof.
  revert s. induction t as [|b t IH]; intros s; simpl.
  - split; [intros _; by exists s | done].
  - destruct s as [|a s].
    + split; [discriminate | intros [rest H]; discriminate].
    + rewrite andb_true_iff, bool_decide_eq_true, IH. split.
      * intros [-> [rest ->]]. by exists rest.
      * intros [rest H]. injection H as -> ->. split; [done | by exists rest].
Qed.

(** [includes] finds exactly the occurrences of [t] as a substring. *)
Lemma wide_includes_spec (s t : Wide.text) :
  Wide.includes s t = true ↔ ∃ before after, s = before ++ t ++ after.
Proof.
  induction s as [|a s IH]; simpl.
  - rewrite orb_false_r, wide_startsWith_spec. split.
    + intros [rest H]. by exists [], rest.
    + intros (before & after & H). symmetry in H.
      apply app_eq_nil in H as [-> H]. by exists after.
  - rewrite orb_true_iff, wide_startsWith_spec, IH. split.
    + intros [[rest H] | (before & after & ->)].
      * by exists [], rest.
      * by exists (a :: before), after.
    + intros (before & after & H). destruct before as [|b before]; simpl in H.
      * left. by exists after.
      * right. injection H as -> ->. by exists before, after.
Qed.

(** On the units below 256 the conversion goes unit by unit, whatever
    stands before: [JsString.toLowerCase] is its restriction. *)
Lemma lower_from_of_string after_cased s :
  Wide.lower_from after_cased (Wide.of_string s) = Wide.of_string (toLowerCase s).
Proof.
  revert after_cased. induction s as [|c s IH]; intros after_cased; simpl; [done |].
  by rewrite IH.
Qed.

Lemma toLowerCase_of_string s :
  Wide.toLowerCase (Wide.of_string s) = Wide.of_string (toLowerCase s).
Proof. apply lower_from_of_string. Qed.

Lemma startsWith_of_string s t :
  Wide.startsWith (Wide.of_string s) (Wide.of_string t) = startsWith s t.
Proof.
  revert s. induction t as [|b t IH]; intros s; simpl; [done |].
  destruct s as [|a s]; simpl; [done |]. rewrite IH. f_equal.
  destruct (Ascii.eqb_spec a b) as [-> | Hab].
  - by apply bool_decide_eq_true.
  - apply bool_decide_eq_false. intros [= H]. by apply Hab.
Qed.

Lemma includes_of_string s t :
  Wide.includes (Wide.of_string s) (Wide.of_string t) = includes s t.
Proof.
  induction s as [|a s IH]; simpl.
  - change [] with (Wide.of_string ""). by rewrite startsWith_of_string.
  - change (Wide.Latin1 a :: Wide.of_string s) with (Wide.of_string (String a s)).
    by rewrite startsWith_of_string, IH.
Qed.

(** The list view of the component is the list view on texts, read on the
    names and the term of the component. *)
Lemma filteredUsers_of_string st :
  Wide.filteredUsers Wide.wide_name (users st) (Wide.of_string (searchTerm st))
  = filteredUsers st.
Proof.
  unfold Wide.filteredUsers, filteredUsers.
  induction (users st) as [|u l IH]; simpl; [done |]. rewrite IH.
  unfold Wide.matches_search, matches_search, Wide.wide_name.
  destruct (user_name u) as [n|]; simpl; [| done].
  by rewrite !toLowerCase_of_string, includes_of_string.
Qed.

(** A capital sigma at the end of a word becomes a final sigma, a capital
    sigma on its own a plain small one. *)
Lemma final_sigma :
  Wide.toLowerCase [Wide.Capital Wide.Alpha; Wide.Capital Wide.Sigma]
    = [Wide.Small Wide.Alpha; Wide.FinalSigma] ∧
  Wide.toLowerCase [Wide.Capital Wide.Sigma] = [Wide.Small Wide.Sigma].
Proof. done. Qed.

End WideFacts.

(** ** The list view *)

Module ListViewFacts.
Import JsString JsNumber StringFacts NumberFacts SessionFacts UserManagement.

(** A filter whose callback returns on every element returns, and keeps
    the elements on which the callback returns [true], in their order. *)
Lemma array_filter_selection {A : Type} (callback : A → Completion bool)
    (P : A → Prop) (l : list A) :
  Forall (λ x, ∃ b, callback x = Normal b ∧ (b = true ↔ P x)) l →
  ∃ kept, array_filter callback l = Normal kept ∧ selection P l kept.
Proof.
  induction 1 as [|x l (b & Hb & HP) _ (kept & Hkept & Hsel)]; simpl.
  - exists []. split; [done | constructor].
  - rewrite Hb, Hkept. destruct b.
    + exists (x :: kept). split; [done |]. constructor; [by apply HP | done].
    + exists kept. split; [done |]. constructor; [| done].
      intros H. apply HP in H. discriminate.
Qed.

Lemma matches_search_named term u n :
  user_name u = Some n →
  matches_search term u = Normal (includes (toLowerCase n) (toLowerCase term)).
Proof. intros H. unfold matches_search. by rewrite H. Qed.

Lemma shown_lowered_spec term u n :
  user_name u = Some n →
  includes (toLowerCase n) (toLowerCase term) = true ↔ shown_lowered term u.
Proof.
  intros Hn. rewrite StringFacts.includes_spec.
  unfold shown_lowered, lowered_contains. split.
  - intros H. by exists n.
  - intros (n' & Hn' & H). by assert (n' = n) as -> by congruence.
Qed.

(** On records that all have a name the filter returns, and it returns the
    records whose lower-cased name holds the lower-cased term, in their
    order. *)
Lemma array_filter_named term (l : list User) :
  all_named l →
  ∃ kept, array_filter (matches_search term) l = Normal kept ∧
          selection (shown_lowered term) l kept.
Proof.
  intros H. apply array_filter_selection.
  eapply Forall_impl; [exact H |]. intros u [n Hn].
  exists (includes (toLowerCase n) (toLowerCase term)).
  split; [by apply matches_search_named | by apply shown_lowered_spec].
Qed.

(** A record without a name makes the filter throw. *)
Lemma array_filter_nameless term (l : list User) :
  ¬ all_named l → array_filter (matches_search term) l = TypeError.
Proof.
  induction l as [|u l IH]; intros H.
  - destruct H. constructor.
  - simpl. unfold matches_search at 1.
    destruct (user_name u) as [n|] eqn:Hn; [| done].
    rewrite IH; [done |]. intros Hl. apply H. constructor; [by exists n | done].
Qed.

(** The same on texts. *)
Lemma wide_filter_named {R : Type} (name_of : R → option Wide.text) term (l : list R) :
  Forall (λ r, is_Some (name_of r)) l →
  ∃ kept, Wide.filteredUsers name_of l term = Normal kept ∧
          selection (Wide.shown_lowered name_of term) l kept.
Proof.
  intros H. apply array_filter_selection.
  eapply Forall_impl; [exact H |]. intros r [n Hn].
  exists (Wide.includes (Wide.toLowerCase n) (Wide.toLowerCase term)).
  split; [unfold Wide.matches_search; by rewrite Hn |].
  rewrite WideFacts.wide_includes_spec.
  unfold Wide.shown_lowered, Wide.lowered_contains. split.
  - intros H'. by exists n.
  - intros (n' & Hn' & H'). by assert (n' = n) as -> by congruence.
Qed.

(** C8 fails on the name alpha sigma and the term sigma, both in capitals:
    the term stands in the name as it is, but the lower case of the name
    ends in a final sigma and the lower case of the term is a plain small
    sigma, so the record is not in the list. *)
Lemma list_view_misses_final_sigma :
  ¬ Wide.list_view_as_stated Wide.named
      [[Wide.Capital Wide.Alpha; Wide.Capital Wide.Sigma]]
      [Wide.Capital Wide.Sigma].
Proof.
  intros (l & Hl & Hsel). vm_compute in Hl. injection Hl as <-.
  inversion Hsel as [| |x l0 kept Hnot _]; subst.
  apply Hnot. exists [Wide.Capital Wide.Alpha; Wide.Capital Wide.Sigma].
  split; [done |].
  by exists [Wide.Capital Wide.Alpha], [Wide.Capital Wide.Sigma], [].
Qed.

(** C8, amended: when every record of the set has a name, the list view
    holds exactly the records whose name, lower-cased by [toLowerCase],
    contains the lower-cased search term as a substring, in the order of
    the record set; so it is for the component and for names and terms with
    Greek letters; the term "an" on the names Jane, Anna and Bob gives Jane
    and Anna. *)
Theorem list_view_shows_lowered_matches :
  (∀ st, all_named (users st) →
         ∃ l, filteredUsers st = Normal l ∧
              selection (shown_lowered (searchTerm st)) (users st) l) ∧
  (∀ (R : Type) (name_of : R → option Wide.text) (l : list R) term,
      Forall (λ r, is_Some (name_of r)) l →
      ∃ kept, Wide.filteredUsers name_of l term = Normal kept ∧
              selection (Wide.shown_lowered name_of term) l kept) ∧
  filteredUsers
    (setSearchTerm "an"
       (setUsers [served 1 "Jane"; served 2 "Anna"; served 3 "Bob"] initial))
  = Normal [served 1 "Jane"; served 2 "Anna"].
Proof.
  split; [| split; [| by vm_compute]].
  - intros st H. unfold filteredUsers. by apply array_filter_named.
  - intros R name_of l term H. by apply wide_filter_named.
Qed.

(** C8, amended, on the names Jane, Anna and Bob and the term "AN". *)
Lemma list_view_shows_lowered_matches_witness :
  let st := setSearchTerm "AN"
              (setUsers [served 1 "Jane"; served 2 "Anna"; served 3 "Bob"] initial) in
  all_named (users st) ∧
  filteredUsers st = Normal [served 1 "Jane"; served 2 "Anna"] ∧
  ∃ l, filteredUsers st = Normal l ∧
       selection (shown_lowered (searchTerm st)) (users st) l.
Proof.
  intros st.
  assert (H : all_named (users st)) by (repeat constructor; eexists; reflexivity).
  split; [exact H |]. split; [reflexivity |].
  exact (proj1 list_view_shows_lowered_matches st H).
Defined.

End ListViewFacts.

(** ** Identifiers of their own: what the operations keep *)

Module InvariantFacts.
Import JsString JsNumber StringFacts NumberFacts SessionFacts UserManagement.

(** X22: a confirmed deletion keeps the identifiers apart: when the records
    have identifiers of their own before it, they have after it. *)
Lemma delete_keeps_unique_ids id st :
  unique_ids (users st) → unique_ids (users (fst (handleDelete id st))).
Proof.
  unfold unique_ids. cbn [handleDelete fst users setDeleteConfirmation setUsers].
  induction (users st) as [|u l IH]; [done |].
  rewrite fmap_cons, NoDup_cons. intros [Hu Hl].
  rewrite filter_cons. destruct (decide (user_id u ≠ id)); [| by apply IH].
  rewrite fmap_cons, NoDup_cons. split; [| by apply IH].
  intros H. apply Hu.
  apply list_elem_of_fmap in H as (v & Hv & Hin).
  apply list_elem_of_filter in Hin as [_ Hin].
  rewrite Hv. by apply list_elem_of_fmap_2.
Qed.

(** A commit of an edit whose draft carries the identifier of the record
    under edit changes no identifier. *)
Lemma edit_keeps_ids l cu fd :
  fd_id fd = Some (user_id cu) →
  user_id <$> updatedUsers l cu fd = user_id <$> l.
Proof.
  intros Hid. unfold updatedUsers. rewrite <- list_fmap_compose.
  apply list_fmap_ext. intros i u _. simpl.
  destruct (bool_decide_reflect (user_id u = user_id cu)) as [Hu | Hu]; [| done].
  simpl. by rewrite Hid.
Qed.

(** Every event keeps the identifier of the record under edit in the
    draft. *)
Lemma step_keeps_edit_draft st e st' :
  edit_draft_keeps_id st → step st e = Some st' → edit_draft_keeps_id st'.
Proof.
  unfold edit_draft_keeps_id, step. intros Hinv Hstep.
  destruct e; try (destruct (loading st); [| discriminate];
                   injection Hstep as <-; exact Hinv);
    destruct (rows st) as [table|]; try discriminate.
  - injection Hstep as <-. exact Hinv.
  - injection Hstep as <-. discriminate.
  - destruct (table !! row) as [u|]; [| discriminate].
    injection Hstep as <-. intros _. by exists u.
  - destruct (form_open st); [| discriminate]. injection Hstep as <-.
    intros Hm. destruct (Hinv Hm) as (cu & Hcu & Hid). by exists cu.
  - destruct (form_open st); [| discriminate]. injection Hstep as <-.
    unfold handleSubmit.
    destruct (has_errors (formErrors st)); [exact Hinv |].
    destruct (formMode st) as [[]|], (currentUser st); discriminate.
  - destruct (form_open st); [| discriminate]. injection Hstep as <-. discriminate.
  - destruct (table !! row) as [u|]; [| discriminate].
    injection Hstep as <-. exact Hinv.
  - destruct (deleteConfirmation st) as [id|]; [| discriminate].
    destruct (nonzero id); [| discriminate]. injection Hstep as <-. exact Hinv.
  - destruct (deleteConfirmation st) as [id|]; [| discriminate].
    destruct (nonzero id); [| discriminate]. injection Hstep as <-. exact Hinv.
Qed.

Lemma run_keeps_edit_draft es st st' :
  edit_draft_keeps_id st → run st es = Some st' → edit_draft_keeps_id st'.
Proof.
  revert st. induction es as [|e es IH]; intros st Hinv Hrun; simpl in Hrun.
  - by injection Hrun as <-.
  - destruct (step st e) as [st1|] eqn:Hstep; [| discriminate].
    eapply IH; [| exact Hrun]. by eapply step_keeps_edit_draft.
Qed.

Lemma reachable_edit_draft st : reachable st → edit_draft_keeps_id st.
Proof.
  intros [es Hrun]. eapply run_keeps_edit_draft; [| exact Hrun]. discriminate.
Qed.

(** X23: in every state the page can reach, a commit of an edit keeps the
    identifiers apart. *)
Lemma edit_keeps_unique_ids st :
  reachable st → formMode st = Some edit → ¬ some_error (formErrors st) →
  unique_ids (users st) → unique_ids (users (fst (handleSubmit st))).
Proof.
  intros Hreach Hmode Hok Hunique.
  destruct (reachable_edit_draft st Hreach Hmode) as (cu & Hcu & Hid).
  rewrite (handleSubmit_edit st cu Hmode Hcu Hok).
  unfold unique_ids. cbn [fst users close_form setFormData setCurrentUser
                          setFormMode setUsers].
  by rewrite edit_keeps_ids.
Qed.

(** X24: on a set that is not empty and whose identifiers are safe
    integers, a commit of a create keeps the identifiers apart. *)
Lemma create_keeps_unique_ids st :
  formMode st = Some create → ¬ some_error (formErrors st) →
  users st ≠ [] → safe_ids (users st) →
  unique_ids (users st) → unique_ids (users (fst (handleSubmit st))).
Proof.
  intros Hmode Hok Hne Hsafe Hunique.
  rewrite (handleSubmit_create st Hmode Hok).
  unfold unique_ids in *.
  cbn [fst users close_form setFormData setCurrentUser setFormMode setUsers].
  destruct (newUser_id (users st) (formData st) Hne Hsafe) as (m & [_ Hle] & Hid).
  rewrite fmap_app. apply NoDup_app. split; [done |]. split; [| apply NoDup_singleton].
  intros a Ha Hnew. apply list_elem_of_singleton in Hnew.
  destruct (Hle a Ha) as (z & Hz & Hzm). rewrite Hid in Hnew.
  assert (z = (m + 1)%Z) by congruence. lia.
Qed.

End InvariantFacts.

(** ** More on the field validator *)

Module ValidatorExtras.
Import JsString JsNumber RegExp StringFacts RegExpFacts PatternFacts.
Import UserManagement FormView ValidatorFacts.

Lemma count_none p s : all (λ c, negb (p c)) s = true → count p s = 0.
Proof.
  induction s as [|c s IH]; simpl; [done |].
  rewrite andb_true_iff. intros [Hc Hs]. rewrite IH by done.
  by destruct (p c).
Qed.

Lemma all_impl (p q : ascii → bool) s :
  (∀ c, p c = true → q c = true) → all p s = true → all q s = true.
Proof.
  intros Hpq. induction s as [|c s IH]; simpl; [done |].
  rewrite !andb_true_iff. intros [Hc Hs]. split; [by apply Hpq | by apply IH].
Qed.

Lemma email_unit_not_at c : email_unit c = true → negb (is_at c) = true.
Proof. unfold email_unit, is_at. rewrite andb_true_iff. by intros [_ H]. Qed.

Lemma email_unit_not_space c : email_unit c = true → not_space c = true.
Proof. unfold email_unit, not_space. rewrite andb_true_iff. by intros [H _]. Qed.

(** X1: the validator of the email field accepts a value exactly when it
    is of the shape [x@y.z], three non-empty parts free of white space and
    of at-signs; the parts [y] and [z] may hold further dots. *)
Theorem email_validator_exact value :
  validation_error "email" value = "" ↔ email_shape value.
Proof.
  rewrite validation_error_email, <- email_pattern_shape.
  by destruct (test email_pattern value).
Qed.

(** X2: a value the validator of the email field accepts holds exactly one
    at-sign and no white space. *)
Theorem email_accepted_one_at value :
  validation_error "email" value = "" →
  count is_at value = 1 ∧ all not_space value = true.
Proof.
  rewrite validation_error_email.
  destruct (test email_pattern value) eqn:Ht; [| discriminate]. intros _.
  apply email_pattern_shape in Ht as (x & y & z & -> & _ & _ & _ & Hx & Hy & Hz).
  split.
  - rewrite !count_append.
    rewrite (count_none is_at x), (count_none is_at y), (count_none is_at z);
      [done | | |]; eapply all_impl; eauto using email_unit_not_at.
  - rewrite !all_append.
    rewrite (all_impl _ _ x email_unit_not_space Hx).
    rewrite (all_impl _ _ y email_unit_not_space Hy).
    by rewrite (all_impl _ _ z email_unit_not_space Hz).
Qed.

(** X2 on the address [ann@example.org]. *)
Lemma email_accepted_one_at_witness :
  validation_error "email" "ann@example.org" = "" ∧
  count is_at "ann@example.org" = 1 ∧ all not_space "ann@example.org" = true.
Proof.
  assert (H : validation_error "email" "ann@example.org" = "") by (vm_compute; reflexivity).
  split; [exact H | exact (email_accepted_one_at "ann@example.org" H)].
Defined.

(** X3: a value with ten digits or more among digits, white space and
    hyphens, after an optional plus sign, passes the validator of the phone
    field. *)
Theorem phone_ten_digits_pass value :
  phone_ten_digits value → validation_error "phone" value = "".
Proof.
  intros H. apply phone_ten_digits_shape, phone_pattern_shape in H.
  by rewrite validation_error_phone, H.
Qed.

(** X3 on the number [+1 770-736-8031]. *)
Lemma phone_ten_digits_pass_witness :
  phone_ten_digits "+1 770-736-8031" ∧ validation_error "phone" "+1 770-736-8031" = "".
Proof.
  assert (H : phone_ten_digits "+1 770-736-8031").
  { exists "1 770-736-8031". split; [by right |]. split; [vm_compute; reflexivity |].
    vm_compute. lia. }
  split; [exact H | exact (phone_ten_digits_pass _ H)].
Defined.

End ValidatorExtras.

(** ** More on the website pattern *)

Module WebsiteExtras.
Import JsString JsNumber RegExp StringFacts RegExpFacts PatternFacts.
Import UserManagement FormView ValidatorFacts.

Lemma lang_lit s w : lang (Lit s) w ↔ w = s.
Proof.
  revert w. induction s as [|c s IH]; intros w; simpl.
  - split; [apply lang_eps_inv | intros ->; constructor].
  - split.
    + intros H. apply lang_cat_inv in H as (a & b & -> & Ha & Hb).
      apply lang_chr in Ha as ->. apply IH in Hb as ->. done.
    + intros ->. apply (lang_cat _ _ (String c "") s); [by apply lang_chr | by apply IH].
Qed.

Lemma lang_exactly_class n negated items s :
  lang (Exactly n (Class negated items)) s →
  all (class_has negated items) s = true ∧ String.length s = n.
Proof.
  revert s. induction n as [|n IH]; intros s H; simpl in H.
  - by apply lang_eps_inv in H as ->.
  - apply lang_cat_inv in H as (a & b & -> & Ha & Hb).
    apply lang_class_inv in Ha as (c & -> & Hc).
    apply IH in Hb as [Hall Hlen]. simpl. by rewrite Hc, Hall, Hlen.
Qed.

Lemma lang_up_to_class n negated items s :
  lang (UpTo n (Class negated items)) s →
  all (class_has negated items) s = true ∧ String.length s ≤ n.
Proof.
  revert s. induction n as [|n IH]; intros s H; simpl in H.
  - apply lang_eps_inv in H as ->. by split.
  - apply lang_opt in H as [-> | H]; [split; [done | simpl; lia] |].
    apply lang_cat_inv in H as (a & b & -> & Ha & Hb).
    apply lang_class_inv in Ha as (c & -> & Hc).
    apply IH in Hb as [Hall Hlen]. simpl. rewrite Hc, Hall. split; [done | lia].
Qed.

Lemma lang_between_class n m negated items s :
  lang (Between n m (Class negated items)) s →
  all (class_has negated items) s = true ∧ n ≤ String.length s ≤ n + (m - n).
Proof.
  unfold Between. intros H.
  apply lang_cat_inv in H as (a & b & -> & Ha & Hb).
  apply lang_exactly_class in Ha as [Ha1 Ha2].
  apply lang_up_to_class in Hb as [Hb1 Hb2].
  rewrite all_append, length_append, Ha1, Hb1. split; [done | lia].
Qed.

Lemma host_class c :
  class_has false [Digits; Span "a" "z"; One "."; One "-"] c = host_unit c.
Proof.
  unfold class_has, host_unit. cbn [existsb item_has xorb].
  rewrite orb_false_r, (Ascii.eqb_sym "." c), (Ascii.eqb_sym "-" c).
  by rewrite !orb_assoc.
Qed.

Lemma validation_error_website value :
  validation_error "website" value =
  if truthy value && negb (test website_pattern value)
  then "Invalid website URL" else "".
Proof. done. Qed.

(** X4: the website is optional, and a value the validator accepts that is
    not empty starts with nothing, [http://] or [https://], goes on with a
    host name that is not empty and made of digits, lower-case letters,
    dots and hyphens, then has a dot and two more code units at least. *)
Theorem website_accepted_shape value :
  validation_error "website" value = "" →
  value = "" ∨
  ∃ scheme host rest,
    value = scheme +:+ host +:+ "." +:+ rest ∧
    (scheme = "" ∨ scheme = "http://" ∨ scheme = "https://") ∧
    host ≠ "" ∧ all host_unit host = true ∧ 2 ≤ String.length rest.
Proof.
  rewrite validation_error_website. intros H.
  destruct value as [|c0 value0]; [by left |]. right.
  cbn [truthy andb] in H.
  destruct (test website_pattern (String c0 value0)) eqn:Ht; [| discriminate].
  clear H. apply test_lang in Ht. unfold website_pattern in Ht.
  apply lang_seq_cons in Ht as (scheme & s1 & -> & Hscheme & Ht).
  apply lang_seq_cons in Ht as (host & s2 & -> & Hhost & Ht).
  apply lang_seq_cons in Ht as (dot & s3 & -> & Hdot & Ht).
  apply lang_seq_cons in Ht as (tld & s4 & -> & Htld & _).
  apply lang_chr in Hdot as ->.
  apply lang_plus_class in Hhost as [Hhost1 Hhost2].
  rewrite (all_ext _ _ host host_class) in Hhost2.
  apply lang_between_class in Htld as [_ [Htld _]].
  exists scheme, host, (tld +:+ s4). split; [done |]. split.
  - apply lang_opt in Hscheme as [-> | H]; [by left | right].
    apply lang_seq_cons in H as (a & r1 & -> & Ha & H).
    apply lang_seq_cons in H as (b & r2 & -> & Hb & H).
    apply lang_seq_cons in H as (d & r3 & -> & Hd & H).
    apply lang_seq_nil in H as ->.
    apply lang_lit in Ha as ->. apply lang_lit in Hd as ->.
    apply lang_opt in Hb as [-> | Hb]; [by left |].
    apply lang_chr in Hb as ->. by right.
  - split; [done |]. split; [done |]. rewrite length_append. lia.
Qed.

(** X4 on the address [https://example.org/a]. *)
Lemma website_accepted_shape_witness :
  validation_error "website" "https://example.org/a" = "" ∧
  ("https://example.org/a" = "" ∨
   ∃ scheme host rest,
     "https://example.org/a" = scheme +:+ host +:+ "." +:+ rest ∧
     (scheme = "" ∨ scheme = "http://" ∨ scheme = "https://") ∧
     host ≠ "" ∧ all host_unit host = true ∧ 2 ≤ String.length rest).
Proof.
  assert (H : validation_error "website" "https://example.org/a" = "")
    by (vm_compute; reflexivity).
  split; [exact H | exact (website_accepted_shape _ H)].
Defined.

End WebsiteExtras.

(** ** More on typing into the form *)

Module InputExtras.
Import JsString JsNumber StringFacts SessionFacts SubmitFacts.
Import UserManagement FormView.

Lemma field_key_inj f g : field_key f = field_key g → f = g.
Proof. by destruct f, g. Qed.

Lemma set_field_twice f v1 v2 fd : set_field f v2 (set_field f v1 fd) = set_field f v2 fd.
Proof. by destruct f. Qed.

Lemma set_field_swap f g v w fd :
  f ≠ g → set_field f v (set_field g w fd) = set_field g w (set_field f v fd).
Proof. by destruct f, g. Qed.

Lemma or_else_empty v : or_else v "" = v.
Proof. by destruct v. Qed.

Lemma draft_field_set f v fd : draft_field f (set_field f v fd) = Some v.
Proof. by destruct f. Qed.

Lemma draft_field_set_other f g v fd :
  g ≠ f → draft_field g (set_field f v fd) = draft_field g fd.
Proof. by destruct f, g. Qed.

Lemma handleInputChange_errors f v st :
  formErrors (handleInputChange f v st) =
  <[field_key f := validation_error (field_key f) v]> (formErrors st).
Proof. done. Qed.

Lemma handleInputChange_draft f v st :
  formData (handleInputChange f v st) = set_field f v (formData st).
Proof. done. Qed.

(** X5: of two changes to the same input only the last one counts: the
    state is the one the last change alone gives, draft and error map
    alike. *)
Theorem last_change_wins f v1 v2 st :
  handleInputChange f v2 (handleInputChange f v1 st) = handleInputChange f v2 st.
Proof.
  unfold handleInputChange, validateField, setFormErrors, setFormData.
  cbn [users loading searchTerm formMode currentUser formData formErrors
       deleteConfirmation].
  by rewrite set_field_twice, insert_insert_eq.
Qed.

(** X6: changes to two different inputs can be made in either order. *)
Theorem changes_commute f g v w st :
  f ≠ g →
  handleInputChange f v (handleInputChange g w st) =
  handleInputChange g w (handleInputChange f v st).
Proof.
  intros Hfg.
  unfold handleInputChange, validateField, setFormErrors, setFormData.
  cbn [users loading searchTerm formMode currentUser formData formErrors
       deleteConfirmation].
  rewrite (set_field_swap f g) by done.
  rewrite insert_insert_ne; [done |].
  intros H. by apply field_key_inj in H.
Qed.

(** X6 on the name and the city. *)
Lemma changes_commute_witness :
  f_name ≠ f_city ∧
  handleInputChange f_name "Ann" (handleInputChange f_city "Oslo" initial) =
  handleInputChange f_city "Oslo" (handleInputChange f_name "Ann" initial).
Proof.
  assert (H : f_name ≠ f_city) by discriminate.
  split; [exact H | exact (changes_commute f_name f_city "Ann" "Oslo" initial H)].
Defined.

(** X7: after a change to an input, a submit is turned down exactly when
    the typed value is not valid for that input or the error map held a
    message that is not empty for another input. *)
Theorem rejected_after_change f v st :
  rejected (handleInputChange f v st) ↔
  validation_error (field_key f) v ≠ "" ∨
  ∃ key message,
    key ≠ field_key f ∧ formErrors st !! key = Some message ∧ message ≠ "".
Proof.
  rewrite rejected_spec. unfold some_error.
  rewrite handleInputChange_errors. split.
  - intros (key & message & Hk & Hm).
    destruct (decide (key = field_key f)) as [-> | Hne].
    + rewrite lookup_insert_eq in Hk. injection Hk as <-. by left.
    + rewrite lookup_insert_ne in Hk by done. right. by exists key, message.
  - intros [Hv | (key & message & Hne & Hk & Hm)].
    + exists (field_key f), (validation_error (field_key f) v).
      by rewrite lookup_insert_eq.
    + exists key, message. by rewrite lookup_insert_ne.
Qed.

(** X8: an input carries the [required] attribute exactly when the
    validator has a message for the empty value of its field. *)
Theorem required_matches_validator f :
  required f = true ↔ validation_error (field_key f) "" ≠ "".
Proof. destruct f; vm_compute; split; (done || discriminate || by intros []). Qed.

(** X9: after a change to an input the form shows the typed value in it
    and under it the message of the validator for that value, if any; every
    other input shows what it showed before. *)
Theorem form_after_change f v st :
  input_value f (formData (handleInputChange f v st)) = v ∧
  input_message f (formErrors (handleInputChange f v st)) =
    (if decide (validation_error (field_key f) v = "") then None
     else Some (validation_error (field_key f) v)) ∧
  ∀ g, g ≠ f →
    input_value g (formData (handleInputChange f v st)) = input_value g (formData st) ∧
    input_message g (formErrors (handleInputChange f v st)) =
      input_message g (formErrors st).
Proof.
  rewrite handleInputChange_errors, handleInputChange_draft.
  unfold input_value, input_message. split; [| split].
  - rewrite draft_field_set. simpl. apply or_else_empty.
  - rewrite lookup_insert_eq.
    destruct (validation_error (field_key f) v) as [|c m]; [done |].
    by rewrite decide_False.
  - intros g Hg. rewrite draft_field_set_other by done. split; [done |].
    rewrite lookup_insert_ne; [done |].
    intros H. apply field_key_inj in H. by subst.
Qed.

(** X10: the form of an edit session shows, in every input, what the record
    holds for it, and nothing where the record has no such key. *)
Theorem edit_form_shows_record f u st :
  input_value f (formData (open_edit u st)) = default "" (record_field f u) ∧
  input_message f (formErrors (open_edit u st)) = None.
Proof.
  split.
  - unfold input_value. cbn [open_edit formData setFormErrors setFormData].
    destruct f; cbn [draft_field draft_of record_field fd_name fd_email fd_phone
                     fd_street fd_city fd_company_name fd_website];
      try (cbn [draft_or default]; apply or_else_empty).
    + by destruct (user_name u) as [[]|].
    + by destruct (user_email u) as [[]|].
    + by destruct (user_phone u) as [[]|].
    + by destruct (user_website u) as [[]|].
  - unfold input_message. cbn [open_edit formErrors setFormErrors].
    by rewrite lookup_empty.
Qed.

End InputExtras.

(** ** More on committing and deleting *)

Module CommitExtras.
Import JsString JsNumber StringFacts NumberFacts SessionFacts SubmitFacts.
Import DeleteFacts InvariantFacts UserManagement FormView.

Lemma or_else_same v : or_else v v = v.
Proof. by destruct v. Qed.

Lemma over_same {A : Type} (o : option A) : over o o = o.
Proof. by destruct o. Qed.

(** A record merged with its own draft keeps every declared key. *)
Lemma updatedUser_own_draft u : same_declared u (updatedUser u (draft_of u)).
Proof.
  unfold same_declared, updatedUser, draft_of. simpl.
  rewrite !over_same, !or_else_same.
  by destruct (user_company u), (user_address u).
Qed.

Lemma same_declared_refl u : same_declared u u.
Proof. by repeat split. Qed.

Lemma unique_ids_inj (l : list User) u v :
  unique_ids l → u ∈ l → v ∈ l → user_id u = user_id v → u = v.
Proof.
  unfold unique_ids. induction l as [|w l IH]; intros Hnd Hu Hv Hid.
  - by apply elem_of_nil in Hu.
  - rewrite fmap_cons in Hnd. apply NoDup_cons in Hnd as [Hw Hnd].
    apply elem_of_cons in Hu as [-> | Hu]; apply elem_of_cons in Hv as [-> | Hv].
    + done.
    + destruct Hw. rewrite Hid. by apply list_elem_of_fmap_2.
    + destruct Hw. rewrite <- Hid. by apply list_elem_of_fmap_2.
    + by apply IH.
Qed.

(** X11: when the records have identifiers of their own, opening the edit
    form of a record of the set and submitting it untouched is accepted,
    closes the form and leaves every record with the keys the interface
    declares as they were (the merge only adds the flattened draft keys to
    the edited record). *)
Theorem untouched_edit_keeps_records u st :
  unique_ids (users st) → u ∈ users st →
  ¬ rejected (open_edit u st) ∧
  formMode (fst (handleSubmit (open_edit u st))) = None ∧
  Forall2 same_declared (users st) (users (fst (handleSubmit (open_edit u st)))).
Proof.
  intros Hunique Hu.
  assert (Hok : ¬ some_error (formErrors (open_edit u st))) by exact no_error_in_empty.
  split; [by rewrite rejected_spec |].
  rewrite (handleSubmit_edit (open_edit u st) u eq_refl eq_refl Hok).
  split; [done |].
  cbn [fst users close_form setFormData setCurrentUser setFormMode setUsers
       open_edit setFormErrors formData].
  unfold updatedUsers. apply Forall2_fmap_r, Forall_Forall2_diag, Forall_forall.
  intros v Hv. unfold compose.
  destruct (bool_decide_reflect (user_id v = user_id u)) as [Hid | Hid].
  - rewrite (unique_ids_inj _ v u Hunique Hv Hu Hid). apply updatedUser_own_draft.
  - apply same_declared_refl.
Qed.

(** X11 on the second of three records. *)
Lemma untouched_edit_keeps_records_witness :
  let data := [served 1 "Jane"; served 3 "Anna"; served 7 "Bob"] in
  let st := setLoading false (setUsers data initial) in
  unique_ids (users st) ∧ served 3 "Anna" ∈ users st ∧
  Forall2 same_declared (users st)
    (users (fst (handleSubmit (open_edit (served 3 "Anna") st)))).
Proof.
  intros data st.
  assert (H1 : unique_ids (users st))
    by (apply (bool_decide_unpack _); vm_compute; exact I).
  assert (H2 : served 3 "Anna" ∈ users st) by (right; left).
  split; [exact H1 |]. split; [exact H2 |].
  exact (proj2 (proj2 (untouched_edit_keeps_records (served 3 "Anna") st H1 H2))).
Defined.

(** X12: a submit never takes a record away: the record set keeps its
    length, or grows by one record, and it grows exactly when a create
    session is submitted with no message in the error map. *)
Theorem submit_never_removes st :
  length (users st) ≤ length (users (fst (handleSubmit st))) ≤ S (length (users st)) ∧
  (length (users (fst (handleSubmit st))) = S (length (users st)) ↔
   formMode st = Some create ∧ ¬ some_error (formErrors st)).
Proof.
  unfold handleSubmit. rewrite <- has_errors_false.
  destruct (has_errors (formErrors st)).
  - simpl. split; [lia |]. split; [lia | by intros [_ ?]].
  - destruct (formMode st) as [[]|] eqn:Hmode.
    + cbn [fst users close_form setFormData setCurrentUser setFormMode setUsers].
      rewrite length_app. simpl. split; [lia |]. split; [done | lia].
    + destruct (currentUser st) as [cu|];
        cbn [fst users close_form setFormData setCurrentUser setFormMode setUsers];
        unfold updatedUsers; rewrite ?length_fmap;
        (split; [lia |]); (split; [lia | by intros [? _]]).
    + cbn [fst users close_form setFormData setCurrentUser setFormMode setUsers].
      split; [lia |]. split; [lia | by intros [? _]].
Qed.

(** X13: confirming the deletion of an identifier no record has leaves the
    record set as it is. *)
Theorem delete_absent_id id st :
  id ∉ (user_id <$> users st) → users (fst (handleDelete id st)) = users st.
Proof.
  intros H. cbn [handleDelete fst users setDeleteConfirmation setUsers].
  by apply filter_other_ids.
Qed.

(** X13 on the identifier 4 among 2, 5 and 9. *)
Lemma delete_absent_id_witness :
  let st := setUsers [served 2 "Jane"; served 5 "Anna"; served 9 "Bob"] initial in
  (Int 4 ∉ (user_id <$> users st)) ∧ users (fst (handleDelete (Int 4) st)) = users st.
Proof.
  intros st.
  assert (H : Int 4 ∉ (user_id <$> users st))
    by (apply (bool_decide_unpack _); vm_compute; exact I).
  split; [exact H | exact (delete_absent_id (Int 4) st H)].
Defined.

(** X14: deleting the same identifier a second time changes nothing more,
    and two deletions give the same record set in either order. *)
Theorem deletions_compose a b st :
  users (fst (handleDelete a (fst (handleDelete a st)))) =
    users (fst (handleDelete a st)) ∧
  users (fst (handleDelete a (fst (handleDelete b st)))) =
    users (fst (handleDelete b (fst (handleDelete a st)))).
Proof.
  cbn [handleDelete fst users setDeleteConfirmation setUsers]. split.
  - apply filter_other_ids. intros H.
    apply list_elem_of_fmap in H as (u & Hu & Hin).
    apply list_elem_of_filter in Hin as [Hne _]. by apply Hne.
  - rewrite !list_filter_filter. apply list_filter_iff. intros u. tauto.
Qed.

End CommitExtras.

(** ** More on the list view and the login handle *)

Module ViewExtras.
Import JsString JsNumber StringFacts NumberFacts SessionFacts ListViewFacts.
Import UserManagement FormView.

Lemma replace_spaces_from_no_space in_run s :
  all not_space (replace_spaces_from in_run s) = true.
Proof.
  revert in_run. induction s as [|c s IH]; intros in_run; simpl; [done |].
  destruct (is_space c) eqn:Hspace.
  - destruct in_run; simpl; by rewrite ?IH.
  - simpl. unfold not_space at 1. by rewrite Hspace, IH.
Qed.

Lemma replace_spaces_from_id s :
  all not_space s = true → replace_spaces_from false s = s.
Proof.
  induction s as [|c s IH]; simpl; [done |].
  rewrite andb_true_iff. unfold not_space at 1. intros [Hc Hs].
  apply negb_true_iff in Hc. by rewrite Hc, IH.
Qed.

(** X15: the login handle of a created record is [USER-undefined] when the
    draft has no name.  When it has one, the handle is [USER-] followed by
    a text without white space, and that text is the lower-cased name
    itself when this has no white space; the name Jane Doe gives
    [USER-jane-doe]. *)
Theorem login_handle_shape l fd :
  (fd_name fd = None → user_username (newUser l fd) = "USER-undefined") ∧
  (∀ n, fd_name fd = Some n →
        ∃ h, user_username (newUser l fd) = "USER-" +:+ h ∧
             all not_space h = true ∧
             (all not_space (toLowerCase n) = true → h = toLowerCase n)) ∧
  (fd_name fd = Some "Jane Doe" → user_username (newUser l fd) = "USER-jane-doe").
Proof.
  cbn [newUser user_username]. unfold login_handle.
  split; [by intros -> |]. split.
  - intros n ->. exists (replace_spaces (toLowerCase n)).
    split; [done |]. split; [apply replace_spaces_from_no_space |].
    apply replace_spaces_from_id.
  - by intros ->.
Qed.

(** X15 on a name with two runs of white space. *)
Lemma login_handle_shape_witness :
  let fd := set_field f_name "Ada  King Lovelace" empty_draft in
  fd_name fd = Some "Ada  King Lovelace" ∧
  ∃ h, user_username (newUser [] fd) = "USER-" +:+ h ∧
       h = "ada-king-lovelace" ∧ all not_space h = true.
Proof.
  intros fd.
  assert (H : fd_name fd = Some "Ada  King Lovelace") by reflexivity.
  split; [exact H |].
  destruct (proj1 (proj2 (login_handle_shape [] fd)) _ H) as (h & Hh & Hspace & _).
  exists h. split; [exact Hh |]. split; [| exact Hspace].
  vm_compute in Hh. by injection Hh as <-.
Defined.

(** X16: the list view throws exactly when some record of the set has no
    name; otherwise it returns a list. *)
Theorem list_view_throws_iff st :
  filteredUsers st = TypeError ↔ ¬ all_named (users st).
Proof.
  unfold filteredUsers. split.
  - intros H Hall.
    destruct (array_filter_named (searchTerm st) (users st) Hall) as (kept & Hk & _).
    congruence.
  - apply array_filter_nameless.
Qed.

Lemma includes_empty s : includes s "" = true.
Proof. by destruct s. Qed.

(** X17: with an empty search term the list view holds every record of the
    set, when they all have a name. *)
Theorem empty_term_shows_all st :
  all_named (users st) → searchTerm st = "" → filteredUsers st = Normal (users st).
Proof.
  unfold filteredUsers. intros Hall ->.
  induction Hall as [|u l [n Hn] _ IH]; simpl; [done |].
  rewrite (matches_search_named "" u n Hn), IH. simpl.
  by rewrite includes_empty.
Qed.

(** X17 on three served records. *)
Lemma empty_term_shows_all_witness :
  let st := setUsers [served 1 "Jane"; served 2 "Anna"; served 3 "Bob"] initial in
  all_named (users st) ∧ searchTerm st = "" ∧ filteredUsers st = Normal (users st).
Proof.
  intros st.
  assert (H : all_named (users st)) by (repeat constructor; eexists; reflexivity).
  split; [exact H |]. split; [reflexivity |].
  exact (empty_term_shows_all st H eq_refl).
Defined.

Lemma includes_trans s t2 t1 :
  includes s t2 = true → includes t2 t1 = true → includes s t1 = true.
Proof.
  rewrite !includes_spec.
  intros (b & a & ->) (b' & a' & ->).
  exists (b +:+ b'), (a' +:+ a). by rewrite !append_assoc.
Qed.

Lemma array_filter_narrows t1 t2 (l : list User) l1 l2 :
  includes (toLowerCase t2) (toLowerCase t1) = true →
  array_filter (matches_search t1) l = Normal l1 →
  array_filter (matches_search t2) l = Normal l2 →
  l2 `sublist_of` l1.
Proof.
  intros Hocc. revert l1 l2. induction l as [|u l IH]; intros l1 l2; simpl.
  - intros [= <-] [= <-]. constructor.
  - unfold matches_search at 1 3.
    destruct (user_name u) as [n|] eqn:Hn; [| discriminate].
    destruct (array_filter (matches_search t1) l) as [r1|]; [| discriminate].
    destruct (array_filter (matches_search t2) l) as [r2|]; [| discriminate].
    intros [= <-] [= <-]. specialize (IH r1 r2 eq_refl eq_refl).
    destruct (includes (toLowerCase n) (toLowerCase t2)) eqn:H2.
    + rewrite (includes_trans _ _ _ H2 Hocc). by apply sublist_skip.
    + destruct (includes (toLowerCase n) (toLowerCase t1)); [by apply sublist_cons | done].
Qed.

(** X18: a search term whose lower case contains the lower case of another
    term shows no record the other does not show: the list for the first
    is a sublist of the list for the second. *)
Theorem longer_term_narrows st t1 t2 l1 l2 :
  includes (toLowerCase t2) (toLowerCase t1) = true →
  filteredUsers (setSearchTerm t1 st) = Normal l1 →
  filteredUsers (setSearchTerm t2 st) = Normal l2 →
  l2 `sublist_of` l1.
Proof. unfold filteredUsers. apply array_filter_narrows. Qed.

(** X18 on the terms [an] and [ANN]. *)
Lemma longer_term_narrows_witness :
  let st := setUsers [served 1 "Jane"; served 2 "Anna"; served 3 "Bob"] initial in
  includes (toLowerCase "ANN") (toLowerCase "an") = true ∧
  filteredUsers (setSearchTerm "an" st) = Normal [served 1 "Jane"; served 2 "Anna"] ∧
  filteredUsers (setSearchTerm "ANN" st) = Normal [served 2 "Anna"] ∧
  [served 2 "Anna"] `sublist_of` [served 1 "Jane"; served 2 "Anna"].
Proof.
  intros st.
  assert (H : includes (toLowerCase "ANN") (toLowerCase "an") = true) by reflexivity.
  assert (H1 : filteredUsers (setSearchTerm "an" st)
               = Normal [served 1 "Jane"; served 2 "Anna"]) by reflexivity.
  assert (H2 : filteredUsers (setSearchTerm "ANN" st) = Normal [served 2 "Anna"])
    by reflexivity.
  split; [exact H |]. split; [exact H1 |]. split; [exact H2 |].
  exact (longer_term_narrows st "an" "ANN" _ _ H H1 H2).
Defined.

End ViewExtras.

(** ** More on the states the page can reach *)

Module ReachExtras.
Import JsString JsNumber StringFacts NumberFacts SessionFacts InvariantFacts.
Import UserManagement FormView.

(** A property of the initial state that every event keeps holds in every
    state the page can reach. *)
Lemma reachable_invariant (P : State → Prop) :
  P initial →
  (∀ st e st', P st → step st e = Some st' → P st') →
  ∀ st, reachable st → P st.
Proof.
  intros Hinit Hstep st [es Hrun].
  assert (H : ∀ es st0, P st0 → run st0 es = Some st → P st).
  { clear es Hrun. induction es as [|e es IH]; intros st0 H0 Hrun; simpl in Hrun.
    - by injection Hrun as <-.
    - destruct (step st0 e) as [st1|] eqn:He; [| discriminate].
      apply (IH st1); [by apply (Hstep st0 e) | done]. }
  by apply (H es initial).
Qed.

(** A control other than the two of the loader exists only once the page
    has loaded. *)
Lemma step_loaded st e st' :
  step st e = Some st' → loading st' = false.
Proof.
  unfold step, rows. intros H.
  destruct e; destruct (loading st) eqn:Hl; try discriminate;
    try (injection H as <-; reflexivity);
    destruct (filteredUsers st) as [table|]; try discriminate.
  - by injection H as <-.
  - by injection H as <-.
  - destruct (table !! row); [by injection H as <- | discriminate].
  - destruct (form_open st); [by injection H as <- | discriminate].
  - destruct (form_open st); [injection H as <- | discriminate].
    unfold handleSubmit. destruct (has_errors (formErrors st)); [done |].
    by destruct (formMode st) as [[]|], (currentUser st).
  - destruct (form_open st); [by injection H as <- | discriminate].
  - destruct (table !! row); [by injection H as <- | discriminate].
  - destruct (deleteConfirmation st) as [id|]; [| discriminate].
    destruct (nonzero id); [by injection H as <- | discriminate].
  - destruct (deleteConfirmation st) as [id|]; [| discriminate].
    destruct (nonzero id); [by injection H as <- | discriminate].
Qed.

(** X19: whenever no form is open, the draft is empty and no record is
    under edit, in every state the page can reach. *)
Theorem closed_form_is_clean st :
  reachable st → formMode st = None →
  currentUser st = None ∧ formData st = empty_draft.
Proof.
  intros Hreach. revert st Hreach.
  apply (reachable_invariant
           (λ st, formMode st = None →
                  currentUser st = None ∧ formData st = empty_draft)); [done |].
  intros st e st' Hinv Hstep. unfold step in Hstep.
  destruct e; try (destruct (loading st); [| discriminate];
                   injection Hstep as <-; exact Hinv);
    destruct (rows st) as [table|]; try discriminate.
  - injection Hstep as <-. exact Hinv.
  - injection Hstep as <-. discriminate.
  - destruct (table !! row) as [u|]; [| discriminate].
    injection Hstep as <-. discriminate.
  - unfold form_open in Hstep. destruct (formMode st) as [m|] eqn:Hm; [| discriminate].
    injection Hstep as <-. cbn [handleInputChange validateField formMode
                                 setFormErrors setFormData]. by rewrite Hm.
  - destruct (form_open st); [| discriminate]. injection Hstep as <-.
    unfold handleSubmit.
    destruct (has_errors (formErrors st)); [exact Hinv |].
    by destruct (formMode st) as [[]|], (currentUser st).
  - destruct (form_open st); [| discriminate]. by injection Hstep as <-.
  - destruct (table !! row) as [u|]; [| discriminate].
    injection Hstep as <-. exact Hinv.
  - destruct (deleteConfirmation st) as [id|]; [| discriminate].
    destruct (nonzero id); [| discriminate]. injection Hstep as <-. exact Hinv.
  - destruct (deleteConfirmation st) as [id|]; [| discriminate].
    destruct (nonzero id); [| discriminate]. injection Hstep as <-. exact Hinv.
Qed.

(** X19 after a create session was opened, typed into and cancelled. *)
Lemma closed_form_is_clean_witness :
  let st := cancel_form
              (handleInputChange f_name "Ann"
                 (open_create (setLoading false initial))) in
  reachable st ∧ formMode st = None ∧
  currentUser st = None ∧ formData st = empty_draft.
Proof.
  intros st.
  assert (H1 : reachable st)
    by (exists [on_load_failed; on_create; on_input f_name "Ann"; on_cancel];
        vm_compute; reflexivity).
  assert (H2 : formMode st = None) by reflexivity.
  split; [exact H1 |]. split; [exact H2 |].
  exact (closed_form_is_clean st H1 H2).
Defined.

(** What every event keeps about the deletion that waits for its
    confirmation. *)
Lemma step_keeps_pending st e st' :
  edit_draft_keeps_id st →
  (loading st = true → deleteConfirmation st = None) →
  (∀ id, deleteConfirmation st = Some id → id ∈ user_id <$> users st) →
  step st e = Some st' →
  (loading st' = true → deleteConfirmation st' = None) ∧
  (∀ id, deleteConfirmation st' = Some id → id ∈ user_id <$> users st').
Proof.
  intros Hedit Hload Hpend Hstep.
  split; [intros H; by rewrite (step_loaded st e st' Hstep) in H |].
  unfold step in Hstep.
  destruct e;
    try (destruct (loading st) eqn:Hl; [| discriminate];
         injection Hstep as <-; intros id Hid;
         cbn [deleteConfirmation setLoading setUsers] in Hid;
         rewrite (Hload eq_refl) in Hid; discriminate);
    destruct (rows st) as [table|] eqn:Hrows; try discriminate.
  - injection Hstep as <-. exact Hpend.
  - injection Hstep as <-. exact Hpend.
  - destruct (table !! row) as [u|]; [| discriminate].
    injection Hstep as <-. exact Hpend.
  - destruct (form_open st); [| discriminate]. injection Hstep as <-. exact Hpend.
  - destruct (form_open st); [| discriminate]. injection Hstep as <-.
    unfold handleSubmit.
    destruct (has_errors (formErrors st)); [exact Hpend |].
    destruct (formMode st) as [[]|] eqn:Hmode.
    + intros id Hid. cbn [fst users close_form setFormData setCurrentUser
                          setFormMode setUsers]. rewrite fmap_app.
      apply elem_of_app. left. by apply Hpend.
    + destruct (Hedit Hmode) as (cu & Hcu & Hfd). rewrite Hcu.
      intros id Hid. cbn [fst users close_form setFormData setCurrentUser
                          setFormMode setUsers].
      rewrite (edit_keeps_ids _ _ _ Hfd). by apply Hpend.
    + destruct (currentUser st); exact Hpend.
  - destruct (form_open st); [| discriminate]. injection Hstep as <-. exact Hpend.
  - destruct (table !! row) as [u|] eqn:Hrow; [| discriminate].
    injection Hstep as <-. intros id [= <-].
    cbn [users ask_delete setDeleteConfirmation].
    apply list_elem_of_fmap_2.
    unfold rows in Hrows. destruct (loading st); [discriminate |].
    destruct (filteredUsers st) as [l|] eqn:Hl; [| discriminate].
    injection Hrows as ->.
    apply list_elem_of_lookup_2 in Hrow.
    assert (Hsub : ∀ (us kept : list User) term,
               array_filter (matches_search term) us = Normal kept →
               ∀ x, x ∈ kept → x ∈ us).
    { clear. induction us as [|x0 us IH]; intros kept term; simpl.
      - intros [= <-] x Hx. by apply elem_of_nil in Hx.
      - destruct (matches_search term x0) as [keep|]; [| discriminate].
        destruct (array_filter (matches_search term) us) as [rest|] eqn:Hr;
          [| discriminate].
        intros [= <-] x Hx. destruct keep.
        + apply elem_of_cons in Hx as [-> | Hx]; [by left | right; by eapply IH].
        + right. by eapply IH. }
    by apply (Hsub _ _ _ Hl).
  - destruct (deleteConfirmation st) as [id|]; [| discriminate].
    destruct (nonzero id); [| discriminate]. injection Hstep as <-. by intros id'.
  - destruct (deleteConfirmation st) as [id|]; [| discriminate].
    destruct (nonzero id); [| discriminate]. injection Hstep as <-. by intros id'.
Qed.

(** X20: in every state the page can reach, an identifier that waits for the
    confirmation of its deletion is the identifier of a record of the
    set. *)
Theorem pending_delete_exists st id :
  reachable st → deleteConfirmation st = Some id → id ∈ user_id <$> users st.
Proof.
  intros Hreach.
  assert (H : edit_draft_keeps_id st ∧
              (loading st = true → deleteConfirmation st = None) ∧
              (∀ id, deleteConfirmation st = Some id → id ∈ user_id <$> users st)).
  { revert st Hreach.
    apply (reachable_invariant
             (λ st, edit_draft_keeps_id st ∧
                    (loading st = true → deleteConfirmation st = None) ∧
                    (∀ id, deleteConfirmation st = Some id →
                           id ∈ user_id <$> users st))).
    - split; [discriminate |]. split; [done | discriminate].
    - intros st e st' (H1 & H2 & H3) Hstep. split.
      + by apply (step_keeps_edit_draft st e).
      + by apply (step_keeps_pending st e). }
  apply H.
Qed.

(** X20 after the trash button of the second row was pressed. *)
Lemma pending_delete_exists_witness :
  let data := [served 2 "Jane"; served 5 "Anna"; served 9 "Bob"] in
  let st := ask_delete (Int 5) (setLoading false (setUsers data initial)) in
  reachable st ∧ deleteConfirmation st = Some (Int 5) ∧
  Int 5 ∈ user_id <$> users st.
Proof.
  intros data st.
  assert (H1 : reachable st)
    by (exists [on_loaded data; on_trash 1]; vm_compute; reflexivity).
  assert (H2 : deleteConfirmation st = Some (Int 5)) by reflexivity.
  split; [exact H1 |]. split; [exact H2 |].
  exact (pending_delete_exists st (Int 5) H1 H2).
Defined.

(** X21: only the loader, a submit and a confirmed deletion change the
    record set: searching, opening or cancelling a form, typing, pressing a
    trash button and cancelling a deletion leave it as it is. *)
Theorem other_events_keep_records st e st' :
  step st e = Some st' → writes_records e = false → users st' = users st.
Proof.
  unfold step. intros Hstep He.
  destruct e; try discriminate;
    try (destruct (loading st); [| discriminate]; by injection Hstep as <-);
    destruct (rows st) as [table|]; try discriminate.
  - by injection Hstep as <-.
  - by injection Hstep as <-.
  - destruct (table !! row); [by injection Hstep as <- | discriminate].
  - destruct (form_open st); [by injection Hstep as <- | discriminate].
  - destruct (form_open st); [by injection Hstep as <- | discriminate].
  - destruct (table !! row); [by injection Hstep as <- | discriminate].
  - destruct (deleteConfirmation st) as [id|]; [| discriminate].
    destruct (nonzero id); [by injection Hstep as <- | discriminate].
Qed.

(** X21 on typing a name into the form of a create session. *)
Lemma other_events_keep_records_witness :
  let st := open_create (setLoading false (setUsers [served 1 "Jane"] initial)) in
  step st (on_input f_name "Ann") = Some (handleInputChange f_name "Ann" st) ∧
  writes_records (on_input f_name "Ann") = false ∧
  users (handleInputChange f_name "Ann" st) = users st.
Proof.
  intros st.
  assert (H1 : step st (on_input f_name "Ann") = Some (handleInputChange f_name "Ann" st))
    by reflexivity.
  split; [exact H1 |]. split; [reflexivity |].
  exact (other_events_keep_records st _ _ H1 eq_refl).
Defined.

(** X22 on the identifier 5 among 2, 5 and 9. *)
Lemma delete_keeps_unique_ids_witness :
  let st := setUsers [served 2 "Jane"; served 5 "Anna"; served 9 "Bob"] initial in
  unique_ids (users st) ∧ unique_ids (users (fst (handleDelete (Int 5) st))).
Proof.
  intros st.
  assert (H : unique_ids (users st))
    by (apply (bool_decide_unpack _); vm_compute; exact I).
  split; [exact H | exact (delete_keeps_unique_ids (Int 5) st H)].
Defined.

(** X23 on an edit session of the second of three records in which a new
    city was typed. *)
Lemma edit_keeps_unique_ids_witness :
  let data := [served 1 "Jane"; served 3 "Anna"; served 7 "Bob"] in
  let st := handleInputChange f_city "Lisbon"
              (open_edit (served 3 "Anna") (setLoading false (setUsers data initial))) in
  reachable st ∧ formMode st = Some edit ∧ ¬ some_error (formErrors st) ∧
  unique_ids (users st) ∧ unique_ids (users (fst (handleSubmit st))).
Proof.
  intros data st.
  assert (H1 : reachable st)
    by (exists [on_loaded data; on_edit 1; on_input f_city "Lisbon"];
        vm_compute; reflexivity).
  assert (H2 : formMode st = Some edit) by reflexivity.
  assert (H3 : ¬ some_error (formErrors st))
    by (apply has_errors_false; vm_compute; reflexivity).
  assert (H4 : unique_ids (users st))
    by (apply (bool_decide_unpack _); vm_compute; exact I).
  split; [exact H1 |]. split; [exact H2 |]. split; [exact H3 |].
  split; [exact H4 | exact (edit_keeps_unique_ids st H1 H2 H3 H4)].
Defined.

(** X24 on a create session over the identifiers 1, 3 and 7. *)
Lemma create_keeps_unique_ids_witness :
  let data := [served 1 "Jane"; served 3 "Anna"; served 7 "Bob"] in
  let st := open_create (setLoading false (setUsers data initial)) in
  formMode st = Some create ∧ ¬ some_error (formErrors st) ∧
  users st ≠ [] ∧ safe_ids (users st) ∧
  unique_ids (users st) ∧ unique_ids (users (fst (handleSubmit st))).
Proof.
  intros data st.
  assert (H1 : formMode st = Some create) by reflexivity.
  assert (H2 : ¬ some_error (formErrors st)) by exact no_error_in_empty.
  assert (H3 : users st ≠ []) by discriminate.
  assert (H4 : safe_ids (users st)).
  { repeat constructor; eexists; (split; [reflexivity | unfold safe_integer; lia]). }
  assert (H5 : unique_ids (users st))
    by (apply (bool_decide_unpack _); vm_compute; exact I).
  split; [exact H1 |]. split; [exact H2 |]. split; [exact H3 |]. split; [exact H4 |].
  split; [exact H5 | exact (create_keeps_unique_ids st H1 H2 H3 H4 H5)].
Defined.

End ReachExtras.
